(** * FaceAlignment: hard-case mining of the face alignment component

    A shallow embedding of [src/FaceAlignment.cpp] (namespace [upm]):
    [FaceAlignment::parseOptions], the skeleton drawing shared by
    [FaceAlignment::show] and [FaceAlignment::save], the records written by
    [FaceAlignment::evaluate], and the per-face aggregation, classification
    and collision-probing file naming of [FaceAlignment::save].

    Conventions.
    - [float] values are IEEE-754 binary32 and [double] values binary64, both
      carried by [spec_float] and computed with the operations of
      [SpecFloat] at the precision of the C++ type.
    - [unsigned int] is an [N] below [2^32] and [std::size_t] an [N] below
      [2^64]; every wrap-around is written out.
    - The file system is a finite map from paths to the images stored there.
    - A [cv::Mat] is the decoded source together with the sequence of drawing
      primitives applied to it since it was decoded.
    - A [std::ostream] is the sequence of the values inserted into it. *)

From Stdlib Require Import ZArith Ascii String.
From Stdlib Require Import QArith Qpower Qfield.
From Stdlib Require Import SpecFloat.
From stdpp Require Import base gmap strings list fin_maps pretty.

(** ** IEEE-754 arithmetic of the C++ types [float] and [double] *)

Module F32.
Definition prec : Z := 24.
Definition emax : Z := 128.
Definition t := spec_float.

Definition of_Z (z : Z) : t := binary_normalize prec emax z 0 false.
(** [m * 2^e], rounded to nearest even. *)
Definition of_scaled (m e : Z) : t := binary_normalize prec emax m e false.
Definition lt (x y : t) : bool := SFltb x y.
(** [x > y] of C++. *)
Definition gt (x y : t) : bool := SFltb y x.
Definition ge (x y : t) : bool := SFleb y x.
Definition add (x y : t) : t := SFadd prec emax x y.
Definition sub (x y : t) : t := SFsub prec emax x y.
Definition mul (x y : t) : t := SFmul prec emax x y.
Definition div (x y : t) : t := SFdiv prec emax x y.
Definition sqrt (x : t) : t := SFsqrt prec emax x.
Definition is_nan (x : t) : bool :=
  match x with S754_nan => true | _ => false end.
Definition valid (x : t) : bool := valid_binary prec emax x.
End F32.

Module F64.
Definition prec : Z := 53.
Definition emax : Z := 1024.
Definition t := spec_float.

Definition zero : t := S754_zero false.
Definition add (x y : t) : t := SFadd prec emax x y.
Definition valid (x : t) : bool := valid_binary prec emax x.
End F64.

(** Conversions between the two formats and from [std::size_t]. *)
Definition float_to_double (x : F32.t) : F64.t :=
  match x with
  | S754_finite s m e => binary_round F64.prec F64.emax s m e
  | _ => x
  end.

Definition double_to_float (x : F64.t) : F32.t :=
  match x with
  | S754_finite s m e => binary_round F32.prec F32.emax s m e
  | _ => x
  end.

Definition size_to_float (n : N) : F32.t := F32.of_Z (Z.of_N n).

(** The literals of the source. *)
Definition f0_5 : F32.t := F32.of_scaled 1 (-1).
Definition f3_0 : F32.t := F32.of_Z 3.
Definition f4_0 : F32.t := F32.of_Z 4.
Definition f8_0 : F32.t := F32.of_Z 8.
Definition f10_0 : F32.t := F32.of_Z 10.
(** [1.0f], which is also the [float] of a count of one. *)
Definition f1_0 : F32.t := S754_finite false 8388608 (-23).
(** [0.01f] is [0x3C23D70A] and [0.005f] is [0x3BA3D70A]. *)
Definition f0_01 : F32.t := S754_finite false 10737418 (-30).
Definition f0_005 : F32.t := S754_finite false 10737418 (-31).

(** ** Machine integers *)

Definition UINT_MOD : N := 2 ^ 32.
Definition SIZE_MOD : N := 2 ^ 64.
(** [std::string::npos], the largest [std::size_t]. *)
Definition npos : N := SIZE_MOD - 1.
(** [num++] on an [unsigned int]. *)
Definition uint_succ (num : N) : N := ((num + 1) mod UINT_MOD)%N.
(** [found + 1] on a [std::size_t]. *)
Definition size_succ (found : N) : N := ((found + 1) mod SIZE_MOD)%N.

(** ** Data model (as used by the source; declared in FaceAnnotation.hpp) *)

Inductive ErrorMeasure := pupils | corners | height | diagonal.

Global Instance ErrorMeasure_eq_dec : EqDecision ErrorMeasure.
Proof. solve_decision. Defined.

Record Point2f := { pt_x : F32.t; pt_y : F32.t }.
Record Rect2f :=
  { rect_x : F32.t; rect_y : F32.t; rect_width : F32.t; rect_height : F32.t }.
Record FaceBox := { bbox_pos : Rect2f }.

Record FaceLandmark :=
  { feature_idx : N; pos : Point2f; occluded : F32.t }.
Record FacePart := { landmarks : list FaceLandmark }.
Record FaceAnnotation :=
  { filename : string; bbox : FaceBox; parts : list FacePart }.

(** The members of [FaceAlignment] set by [parseOptions]. *)
Record FaceAlignment := { _measure : ErrorMeasure; _database : string }.

(** ** [FaceAlignment::parseOptions] *)

(** The option descriptions: both options carry a default value, which
    [po::store] enters into the variables map when the command line gives
    none. *)
Definition option_defaults : gmap string string :=
  {[ "measure" := "height"; "database" := "aflw" ]}.

(** [po::store] followed by [po::notify]: the parsed options, completed by the
    defaults. *)
Definition store (parsed : gmap string string) : gmap string string :=
  parsed ∪ option_defaults.

Definition measure_of_string (measure : string) : ErrorMeasure :=
  if String.eqb measure "pupils" then pupils
  else if String.eqb measure "corners" then corners
  else if String.eqb measure "height" then height
  else diagonal.

Definition parseOptions (parsed : gmap string string) (self : FaceAlignment)
  : FaceAlignment :=
  let vm := store parsed in
  let measure :=
    match vm !! "measure" with
    | Some v => v
    | None => ""
    end in
  let self :=
    {| _measure := measure_of_string measure; _database := _database self |} in
  match vm !! "database" with
  | Some v => {| _measure := _measure self; _database := v |}
  | None => self
  end.

(** ** The threshold cascade at the head of [FaceAlignment::save] *)

Definition save_threshold (self : FaceAlignment) : F32.t :=
  let threshold := f8_0 in
  let threshold :=
    if String.eqb (_database self) "wflw" then f10_0 else threshold in
  let threshold :=
    if decide (_measure self = height) then f4_0 else threshold in
  let threshold :=
    if decide (_measure self = diagonal) then f3_0 else threshold in
  threshold.

(** ** The [std::string] operations used by [save] *)

(** Position of the last occurrence of [c] in [s], scanning from index [i];
    [acc] is the answer so far. *)
Fixpoint find_last_of_from (s : string) (c : ascii) (i acc : N) : N :=
  match s with
  | EmptyString => acc
  | String a s' =>
    find_last_of_from s' c (i + 1) (if Ascii.eqb a c then i else acc)
  end.

(** [s.find_last_of(c)]: [npos] when [c] does not occur. *)
Definition find_last_of (s : string) (c : ascii) : N :=
  find_last_of_from s c 0 npos.

Fixpoint string_drop (n : nat) (s : string) : string :=
  match n, s with
  | O, _ => s
  | S n', String _ s' => string_drop n' s'
  | S _, EmptyString => EmptyString
  end.

(** [s.substr(pos)]: the characters from [pos] on; [None] stands for the
    [std::out_of_range] thrown when [pos] exceeds the size. *)
Definition substr (s : string) (pos : N) : option string :=
  if (N.of_nat (String.length s) <? pos)%N then None
  else Some (string_drop (N.to_nat pos) s).

(** [std::to_string] of an [unsigned int]: its decimal digits. *)
Definition to_string (num : N) : string := pretty num.

(** ** Images and drawing primitives *)

Record Scalar := { v0 : Z; v1 : Z; v2 : Z }.

Definition cyan_color : Scalar := {| v0 := 255; v1 := 122; v2 := 0 |}.
Definition blue_color : Scalar := {| v0 := 255; v1 := 0; v2 := 0 |}.
Definition green_color : Scalar := {| v0 := 0; v1 := 255; v2 := 0 |}.
Definition red_color : Scalar := {| v0 := 0; v1 := 0; v2 := 255 |}.

(** One call of a drawing primitive, with the arguments of the call. *)
Inductive DrawCmd :=
| cv_line (pt1 pt2 : Point2f) (color : Scalar) (thickness : Z)
| cv_circle (center : Point2f) (radius : Z) (color : Scalar) (thickness : Z)
| cv_putText (text : string) (org_x org_y : Z) (fontFace : Z) (fontScale : Z)
    (color : Scalar).

(** A [cv::Mat]: the file it was decoded from, its number of rows, and the
    primitives drawn on it since, oldest first. *)
Record Mat :=
  { mat_source : string; mat_rows : Z; mat_drawn : list DrawCmd }.

Definition draw (image : Mat) (c : DrawCmd) : Mat :=
  {| mat_source := mat_source image; mat_rows := mat_rows image;
     mat_drawn := mat_drawn image ++ [c] |}.

(** The loop over one part's landmarks, written four times in the source
    (ground truth and detections, in [show] and in [save]) with the pair of
    colours as the only difference: [it] walks the landmarks and [next] is
    the one after it. *)
Fixpoint draw_landmarks (normal occl : Scalar) (radius thickness : Z)
    (ls : list FaceLandmark) (canvas : list DrawCmd) : list DrawCmd :=
  match ls with
  | [] => canvas
  | it :: rest =>
    let canvas :=
      match rest with
      | next :: _ =>
        if F32.lt (occluded it) f0_5 || F32.lt (occluded next) f0_5
        then canvas ++ [cv_line (pos it) (pos next) normal thickness]
        else canvas ++ [cv_line (pos it) (pos next) occl thickness]
      | [] => canvas
      end in
    let canvas :=
      canvas ++ [cv_circle (pos it) radius
                   (if F32.lt (occluded it) f0_5 then normal else occl) (-1)] in
    draw_landmarks normal occl radius thickness rest canvas
  end.

Definition draw_parts (normal occl : Scalar) (radius thickness : Z)
    (ps : list FacePart) (canvas : list DrawCmd) : list DrawCmd :=
  foldl (fun canvas part =>
           draw_landmarks normal occl radius thickness (landmarks part) canvas)
        canvas ps.

Definition draw_faces (normal occl : Scalar) (radius thickness : Z)
    (faces : list FaceAnnotation) (canvas : list DrawCmd) : list DrawCmd :=
  foldl (fun canvas face =>
           draw_parts normal occl radius thickness (parts face) canvas)
        canvas faces.

(** ** The file system *)

(** [boost::filesystem::exists]. *)
Definition fs_exists (fs : gmap string Mat) (filepath : string) : bool :=
  bool_decide (is_Some (fs !! filepath)).

(** [cv::imwrite]: the image is stored at the path, replacing what was there. *)
Definition imwrite (filepath : string) (image : Mat) (fs : gmap string Mat)
  : gmap string Mat :=
  <[filepath := image]> fs.

(** ** Per-face aggregation *)

(** [std::accumulate(errors.begin(), errors.end(), 0.0)]: the initial value
    is a [double], so every element is widened and added in binary64. *)
Definition accumulate (errors : list F32.t) : F64.t :=
  foldl (fun acc e => F64.add acc (float_to_double e)) F64.zero errors.

(** [static_cast<float>(accumulate) / static_cast<float>(errors.size())]. *)
Definition mean_error (errors : list F32.t) : F32.t :=
  F32.div (double_to_float (accumulate errors))
          (size_to_float (N.of_nat (length errors))).

(** ** Outcomes of the code of [save] *)

(** [save] either runs to its end, or leaves by the [std::out_of_range] of
    [substr], or is still inside its [do]-[while] loop when the fuel given
    to the model is spent. *)
Inductive res (A : Type) : Type :=
| Ret (a : A)
| OutOfRange
| NoFuel.
Arguments Ret {A} a.
Arguments OutOfRange {A}.
Arguments NoFuel {A}.

Global Instance res_ret : MRet res := fun A a => Ret a.
Global Instance res_bind : MBind res := fun A B k r =>
  match r with
  | Ret a => k a
  | OutOfRange => OutOfRange
  | NoFuel => NoFuel
  end.

(** A computation that never ends: whatever the fuel, it is not enough. *)
Definition diverges {A : Type} (run : nat -> res A) : Prop :=
  forall fuel, run fuel = NoFuel.

(** ** The collision-probing loop of [save]

    [do { filepath = dirpath + to_string(num) + "_" + filename.substr(found+1);
          num++; } while (exists(filepath));]
    started with [num = 0]; one unit of fuel pays for one turn. *)
Fixpoint probe_filepath (fuel : nat) (fs : gmap string Mat)
    (dirpath face_filename : string) (found num : N) : res string :=
  match fuel with
  | O => NoFuel
  | S fuel' =>
    match substr face_filename (size_succ found) with
    | None => OutOfRange
    | Some base =>
      let filepath := ((dirpath +:+ to_string num) +:+ "_") +:+ base in
      let num := uint_succ num in
      if fs_exists fs filepath
      then probe_filepath fuel' fs dirpath face_filename found num
      else Ret filepath
    end
  end.

Definition FONT_HERSHEY_SIMPLEX : Z := 0.

(** Apply drawing code to the canvas of an image. *)
Definition paint (f : list DrawCmd -> list DrawCmd) (image : Mat) : Mat :=
  {| mat_source := mat_source image; mat_rows := mat_rows image;
     mat_drawn := f (mat_drawn image) |}.

Section Save.
(** The collaborators of this file that live elsewhere: the error computer
    of the class, [std::to_string] of a [float], the number of rows
    [cv::imread] finds in a file, and [static_cast<int>(roundf(x))]. *)
Variable getNormalizedErrors :
  FaceAnnotation -> FaceAnnotation -> ErrorMeasure -> list N * list F32.t.
Variable float_to_string : F32.t -> string.
Variable decoded_rows : string -> Z.
Variable round_to_int : F32.t -> Z.

Definition imread (file : string) : Mat :=
  {| mat_source := file; mat_rows := decoded_rows file; mat_drawn := [] |}.

Definition marker_radius (ann : FaceAnnotation) : Z :=
  Z.max (round_to_int (F32.mul (rect_height (bbox_pos (bbox ann))) f0_01)) 3.
Definition line_thickness (ann : FaceAnnotation) : Z :=
  Z.max (round_to_int (F32.mul (rect_height (bbox_pos (bbox ann))) f0_005)) 2.

(** [FaceAlignment::show]: the calls made on the viewer. *)
Definition show (viewer : list DrawCmd) (faces : list FaceAnnotation)
    (ann : FaceAnnotation) : list DrawCmd :=
  let radius := marker_radius ann in
  let thickness := line_thickness ann in
  let viewer :=
    draw_parts cyan_color blue_color radius thickness (parts ann) viewer in
  draw_faces green_color red_color radius thickness faces viewer.

(** The body of [if (err > threshold)]: probe for a free name, then write. *)
Definition write_hard_case (fuel : nat) (dirpath : string)
    (face : FaceAnnotation) (image : Mat) (fs : gmap string Mat)
  : res (gmap string Mat) :=
  let found := find_last_of (filename face) "/" in
  filepath ← probe_filepath fuel fs dirpath (filename face) found 0;
  mret (imwrite filepath image fs).

(** The body of [for (const FaceAnnotation &face : faces)] in [save]; the
    image and the file system are what it changes. *)
Definition save_face (fuel : nat) (self : FaceAlignment) (dirpath : string)
    (ann : FaceAnnotation) (threshold : F32.t) (radius thickness : Z)
    (face : FaceAnnotation) (st : Mat * gmap string Mat)
  : res (Mat * gmap string Mat) :=
  let '(image, fs) := st in
  let image :=
    paint (draw_parts green_color red_color radius thickness (parts face))
          image in
  let '(indices, errors) := getNormalizedErrors face ann (_measure self) in
  let err := mean_error errors in
  let text := float_to_string err in
  let image :=
    draw image (cv_putText text 10 (mat_rows image - 10) FONT_HERSHEY_SIMPLEX
                  1 red_color) in
  if F32.gt err threshold
  then fs' ← write_hard_case fuel dirpath face image fs; mret (image, fs')
  else mret (image, fs).

Fixpoint save_faces (fuel : nat) (self : FaceAlignment) (dirpath : string)
    (ann : FaceAnnotation) (threshold : F32.t) (radius thickness : Z)
    (faces : list FaceAnnotation) (st : Mat * gmap string Mat)
  : res (Mat * gmap string Mat) :=
  match faces with
  | [] => mret st
  | face :: rest =>
    st' ← save_face fuel self dirpath ann threshold radius thickness face st;
    save_faces fuel self dirpath ann threshold radius thickness rest st'
  end.

(** The image [save] has before its loop over the faces: decoded, with the
    ground truth drawn. *)
Definition save_prepare (ann : FaceAnnotation) : Mat :=
  paint (draw_parts cyan_color blue_color (marker_radius ann)
           (line_thickness ann) (parts ann))
        (imread (filename ann)).

(** [FaceAlignment::save], with the local image it ends with. *)
Definition save_run (fuel : nat) (self : FaceAlignment) (dirpath : string)
    (faces : list FaceAnnotation) (ann : FaceAnnotation)
    (fs : gmap string Mat) : res (Mat * gmap string Mat) :=
  let threshold := save_threshold self in
  let radius := marker_radius ann in
  let thickness := line_thickness ann in
  let image := save_prepare ann in
  save_faces fuel self dirpath ann threshold radius thickness faces
             (image, fs).

(** [FaceAlignment::save]: its effect on the file system. *)
Definition save (fuel : nat) (self : FaceAlignment) (dirpath : string)
    (faces : list FaceAnnotation) (ann : FaceAnnotation)
    (fs : gmap string Mat) : res (gmap string Mat) :=
  st ← save_run fuel self dirpath faces ann fs; mret st.2.
End Save.

(** ** [FaceAlignment::evaluate] *)

(** One insertion into the output stream, with the value inserted.
    [put_component_class] is the insertion of [getComponentClass()], a
    member declared outside this file. *)
Inductive StreamItem :=
| put_component_class
| put_string (s : string)
| put_uint (n : N)
| put_float (x : F32.t)
| put_endl.

(** [std::find_if] over the landmarks of one part with the predicate
    [obj.feature_idx == idx]: the first landmark that satisfies it. *)
Fixpoint find_if (idx : N) (ls : list FaceLandmark) : option FaceLandmark :=
  match ls with
  | [] => None
  | obj :: rest =>
    if decide (feature_idx obj = idx) then Some obj else find_if idx rest
  end.

(** The loop over the parts of an annotation that inserts the occlusion of
    the landmark found and breaks. *)
Fixpoint put_occluded (idx : N) (ps : list FacePart)
    (output : list StreamItem) : list StreamItem :=
  match ps with
  | [] => output
  | part :: rest =>
    match find_if idx (landmarks part) with
    | Some found => output ++ [put_string " "; put_float (occluded found)]
    | None => put_occluded idx rest output
    end
  end.

(** [for (unsigned int j=0; j < indices.size(); j++)]: one unit of fuel pays
    for one test of the condition.  [indices[j]] and [errors[j]] are
    unchecked reads, and [OutOfRange] stands here for the read of
    [errors[j]] past the end of [errors], which C++ leaves undefined. *)
Fixpoint evaluate_indices (fuel : nat) (face ann : FaceAnnotation)
    (indices : list N) (errors : list F32.t) (j : N)
    (output : list StreamItem) : res (list StreamItem) :=
  match fuel with
  | O => NoFuel
  | S fuel' =>
    if (j <? N.of_nat (length indices))%N
    then
      match indices !! N.to_nat j, errors !! N.to_nat j with
      | Some idx, Some e =>
        let output :=
          output ++ [put_string " "; put_uint idx; put_string " ";
                     put_float e] in
        let output := put_occluded idx (parts ann) output in
        let output := put_occluded idx (parts face) output in
        evaluate_indices fuel' face ann indices errors (uint_succ j) output
      | _, _ => OutOfRange
      end
    else Ret output
  end.

Section Evaluate.
Variable getNormalizedErrors :
  FaceAnnotation -> FaceAnnotation -> ErrorMeasure -> list N * list F32.t.

(** The body of [for (const FaceAnnotation &face : faces)] in [evaluate]. *)
Definition evaluate_face (fuel : nat) (self : FaceAlignment)
    (ann face : FaceAnnotation) (output : list StreamItem)
  : res (list StreamItem) :=
  let output :=
    output ++ [put_component_class; put_string " ";
               put_string (filename ann)] in
  let '(indices, errors) := getNormalizedErrors face ann (_measure self) in
  output ← evaluate_indices fuel face ann indices errors 0 output;
  mret (output ++ [put_endl]).

(** [FaceAlignment::evaluate]: what the stream holds afterwards. *)
Fixpoint evaluate (fuel : nat) (self : FaceAlignment)
    (output : list StreamItem) (faces : list FaceAnnotation)
    (ann : FaceAnnotation) : res (list StreamItem) :=
  match faces with
  | [] => mret output
  | face :: rest =>
    output ← evaluate_face fuel self ann face output;
    evaluate fuel self output rest ann
  end.
End Evaluate.

(** ** Definitions used to state the properties *)

(** [c] occurs in [s]. *)
Fixpoint occurs (c : ascii) (s : string) : bool :=
  match s with
  | EmptyString => false
  | String a s' => Ascii.eqb a c || occurs c s'
  end.

(** The path tried at turn [num] of the probing loop. *)
Definition candidate (dirpath base : string) (num : N) : string :=
  ((dirpath +:+ to_string num) +:+ "_") +:+ base.

(** The base name [save] attaches to the probe number. *)
Definition basename (s : string) : string :=
  default s (substr s (size_succ (find_last_of s "/"))).

(** The table of the specification, first match wins. *)
Definition threshold_first_match (measure : ErrorMeasure) (dataset : string)
  : F32.t :=
  if String.eqb dataset "wflw" then f10_0
  else if decide (measure = height) then f4_0
  else if decide (measure = diagonal) then f3_0
  else f8_0.

(** The cascade read backwards: a later assignment overrides an earlier one. *)
Definition threshold_last_match (measure : ErrorMeasure) (dataset : string)
  : F32.t :=
  if decide (measure = diagonal) then f3_0
  else if decide (measure = height) then f4_0
  else if String.eqb dataset "wflw" then f10_0
  else f8_0.

(** The tone of the edge from [A] to [B]: the occluded one when both end
    points are occluded to a degree of 0.5 or more. *)
Definition edge_tone (normal occl : Scalar) (A B : FaceLandmark) : Scalar :=
  if F32.ge (occluded A) f0_5 && F32.ge (occluded B) f0_5
  then occl else normal.

(** The tone of the disc drawn at a landmark. *)
Definition point_tone (normal occl : Scalar) (A : FaceLandmark) : Scalar :=
  if F32.lt (occluded A) f0_5 then normal else occl.

(** [A] is immediately followed by [B] in [ls]. *)
Definition consecutive {T : Type} (A B : T) (ls : list T) : Prop :=
  exists pre post, ls = pre ++ A :: B :: post.

(** The primitives one part contributes, in drawing order. *)
Fixpoint skeleton (normal occl : Scalar) (radius thickness : Z)
    (ls : list FaceLandmark) : list DrawCmd :=
  match ls with
  | [] => []
  | it :: rest =>
    match rest with
    | next :: _ =>
      [cv_line (pos it) (pos next)
         (if F32.lt (occluded it) f0_5 || F32.lt (occluded next) f0_5
          then normal else occl) thickness]
    | [] => []
    end
    ++ cv_circle (pos it) radius (point_tone normal occl it) (-1)
    :: skeleton normal occl radius thickness rest
  end.

(** Occlusion degrees are numbers: no landmark of the parts carries a NaN. *)
Definition occlusions_are_numbers (ps : list FacePart) : Prop :=
  Forall (fun part =>
            Forall (fun l => F32.is_nan (occluded l) = false) (landmarks part))
         ps.

(** [n] is the smallest number whose name is free in [fs]. *)
Definition least_free_number (fs : gmap string Mat) (path : N -> string)
    (n : N) : Prop :=
  (n < UINT_MOD)%N /\ (path n ∉ dom fs) /\
  forall m, (m < n)%N -> path m ∈ dom fs.

(** ** The arithmetic mean, in exact arithmetic *)

(** The rational [k * 2^e]. *)
Definition dyadic (k e : Z) : Q := (inject_Z k * 2 ^ e)%Q.

(** The number a floating-point datum stands for; infinities and NaN stand
    for no number. *)
Definition is_finite (x : spec_float) : bool :=
  match x with
  | S754_zero _ | S754_finite _ _ _ => true
  | _ => false
  end.

Definition F2Q (x : spec_float) : Q :=
  match x with
  | S754_finite s m e => dyadic (cond_Zopp s (Z.pos m)) e
  | _ => 0%Q
  end.

(** The datum [x] is the number [q]. *)
Definition is_number (x : spec_float) (q : Q) : Prop :=
  is_finite x = true /\ (F2Q x == q)%Q.

(** The rational [q] is a binary32 number. *)
Definition binary32_number (q : Q) : Prop :=
  exists r : F32.t, F32.valid r = true /\ is_number r q.

(** The arithmetic mean in the words of the specification: the sum of the
    errors divided by their count, as numbers. *)
Definition exact_sum (errors : list F32.t) : Q :=
  foldr (fun e acc => (F2Q e + acc)%Q) 0%Q errors.

Definition exact_mean (errors : list F32.t) : Q :=
  (exact_sum errors / inject_Z (Z.of_nat (length errors)))%Q.

(** The binary32 datum [x] is a non-negative multiple of [2^s]. *)
Definition on_grid (s : Z) (x : F32.t) : Prop :=
  F32.valid x = true /\ exists k : N, is_number x (dyadic (Z.of_N k) s).

(** The largest finite binary32 number, [(2^24 - 1) * 2^104]. *)
Definition FLT_MAX : F32.t := S754_finite false 16777215 104.

(** The accumulator after some of the errors have been added: the binary64
    datum that stands for [K * 2^s]. *)
Definition holds_sum (s : Z) (K : N) (acc : F64.t) : Prop :=
  match K with
  | 0%N => acc = S754_zero false
  | N.pos K' =>
    exists (M : positive) (E : Z),
      acc = S754_finite false M E /\
      (dyadic (Z.pos M) E == dyadic (Z.pos K') s)%Q
  end.

(** The loop body of [save] taken apart: the errors of a face, their mean,
    the hard-case decision, and what the face adds to the image. *)
Section Decomposition.
Variable getNormalizedErrors :
  FaceAnnotation -> FaceAnnotation -> ErrorMeasure -> list N * list F32.t.
Variable float_to_string : F32.t -> string.
Variable self : FaceAlignment.
Variable ann : FaceAnnotation.
Variable threshold : F32.t.
Variable radius thickness : Z.

(** The errors sequence the error computer returns for a face. *)
Definition face_errors (face : FaceAnnotation) : list F32.t :=
  (getNormalizedErrors face ann (_measure self)).2.

Definition face_mean_error (face : FaceAnnotation) : F32.t :=
  mean_error (face_errors face).

(** The hard-case rule: mean error strictly above the threshold. *)
Definition is_hard (face : FaceAnnotation) : bool :=
  F32.gt (face_mean_error face) threshold.

(** What one face adds to an image of [rows] rows: its skeleton, then its
    mean error as text. *)
Definition face_overlay (rows : Z) (face : FaceAnnotation) : list DrawCmd :=
  flat_map (fun part => skeleton green_color red_color radius thickness
                          (landmarks part)) (parts face)
  ++ [cv_putText (float_to_string (face_mean_error face)) 10 (rows - 10)
        FONT_HERSHEY_SIMPLEX 1 red_color].

Definition annotate (image : Mat) (face : FaceAnnotation) : Mat :=
  {| mat_source := mat_source image; mat_rows := mat_rows image;
     mat_drawn := mat_drawn image ++ face_overlay (mat_rows image) face |}.

(** The image after the faces of a list have been drawn on it, one after
    the other. *)
Definition annotate_all (image : Mat) (faces : list FaceAnnotation) : Mat :=
  foldl annotate image faces.
End Decomposition.

(** The ground-truth skeleton that [save] draws first. *)
Definition ground_truth_overlay (round_to_int : F32.t -> Z)
    (ann : FaceAnnotation) : list DrawCmd :=
  flat_map (fun part => skeleton cyan_color blue_color
                          (marker_radius round_to_int ann)
                          (line_thickness round_to_int ann)
                          (landmarks part)) (parts ann).

(** The first landmark with feature index [idx] among the landmarks of the
    parts, taken in order. *)
Definition first_landmark (idx : N) (ps : list FacePart)
  : option FaceLandmark :=
  head (filter (fun l => feature_idx l = idx) (flat_map landmarks ps)).

(** The occlusion field of an annotation for [idx]: absent when the
    annotation has no such landmark. *)
Definition occlusion_field (idx : N) (a : FaceAnnotation)
  : list StreamItem :=
  match first_landmark idx (parts a) with
  | Some l => [put_string " "; put_float (occluded l)]
  | None => []
  end.

(** The fields one index and its error contribute to a record. *)
Definition error_fields (face ann : FaceAnnotation) (entry : N * F32.t)
  : list StreamItem :=
  [put_string " "; put_uint entry.1; put_string " "; put_float entry.2]
  ++ occlusion_field entry.1 ann ++ occlusion_field entry.1 face.

Section Records.
Variable getNormalizedErrors :
  FaceAnnotation -> FaceAnnotation -> ErrorMeasure -> list N * list F32.t.
Variable self : FaceAlignment.
Variable ann : FaceAnnotation.

(** The indices sequence the error computer returns for a face. *)
Definition face_indices (face : FaceAnnotation) : list N :=
  (getNormalizedErrors face ann (_measure self)).1.

(** The record of one face: one line of the output. *)
Definition face_record (face : FaceAnnotation) : list StreamItem :=
  [put_component_class; put_string " "; put_string (filename ann)]
  ++ flat_map (error_fields face ann)
       (zip (face_indices face)
            (face_errors getNormalizedErrors self ann face))
  ++ [put_endl].

(** The error computer has returned an error for every index, and the
    indices can be counted by an [unsigned int]. *)
Definition errors_cover_indices (face : FaceAnnotation) : Prop :=
  (N.of_nat (length (face_indices face)) < UINT_MOD)%N /\
  length (face_indices face)
  <= length (face_errors getNormalizedErrors self ann face).
End Records.

(** The number of hard cases among the faces of a list. *)
Definition hard_count
    (getNormalizedErrors :
       FaceAnnotation -> FaceAnnotation -> ErrorMeasure -> list N * list F32.t)
    (self : FaceAlignment) (ann : FaceAnnotation) (threshold : F32.t)
    (faces : list FaceAnnotation) : N :=
  N.of_nat
    (length (filter (fun face =>
                       is_hard getNormalizedErrors self ann threshold face
                       = true) faces)).

Definition is_circle (c : DrawCmd) : bool :=
  match c with cv_circle _ _ _ _ => true | _ => false end.

Definition is_text (c : DrawCmd) : bool :=
  match c with cv_putText _ _ _ _ _ _ => true | _ => false end.

(** The filled disc drawn at a landmark. *)
Definition disc (normal occl : Scalar) (radius : Z) (l : FaceLandmark)
  : DrawCmd :=
  cv_circle (pos l) radius (point_tone normal occl l) (-1).

(** A line at least two pixels thick or a filled disc of radius three at
    least. *)
Definition visible_size (c : DrawCmd) : Prop :=
  match c with
  | cv_line _ _ _ thickness => (2 <= thickness)%Z
  | cv_circle _ radius _ thickness => (3 <= radius)%Z /\ thickness = (-1)%Z
  | cv_putText _ _ _ _ _ _ => False
  end.

(** ** Stand-ins for the collaborators, used by the worked examples *)

Module Sample.
(** Left-pad a number of at most six digits with zeros. *)
Definition pad6 (s : string) : string :=
  string_drop (String.length s) "000000" +:+ s.

(** [std::to_string(float)] prints as [printf("%f")]: six decimals of the
    exact value, rounded to nearest even. *)
Definition float_to_string (x : F32.t) : string :=
  match x with
  | S754_nan => "nan"
  | S754_infinity s => if s then "-inf" else "inf"
  | S754_zero s => if s then "-0.000000" else "0.000000"
  | S754_finite s m e =>
    let num := (Z.pos m * 10 ^ 6 * 2 ^ Z.max e 0)%Z in
    let den := (2 ^ Z.max (- e) 0)%Z in
    let q0 := (num / den)%Z in
    let r := (num mod den)%Z in
    let q :=
      if (den <? 2 * r)%Z || ((den =? 2 * r)%Z && Z.odd q0)
      then (q0 + 1)%Z else q0 in
    (if s then "-" else "") +:+ pretty (Z.to_N (q / 10 ^ 6)) +:+ "."
      +:+ pad6 (pretty (Z.to_N (q mod 10 ^ 6)))
  end.

(** [static_cast<int>(roundf(x))] on x86-64: halves round away from zero;
    what does not fit an [int] converts to [INT_MIN]. *)
Definition round_to_int (x : F32.t) : Z :=
  match x with
  | S754_zero _ => 0
  | S754_finite s m e =>
    let mag :=
      if (0 <=? e)%Z then (Z.pos m * 2 ^ e)%Z
      else ((Z.pos m + 2 ^ (- e - 1)) / 2 ^ (- e))%Z in
    let v := if s then (- mag)%Z else mag in
    if (- 2 ^ 31 <=? v)%Z && (v <? 2 ^ 31)%Z then v else (- 2 ^ 31)%Z
  | _ => (- 2 ^ 31)%Z
  end.

(** Every source image decodes to 480 rows. *)
Definition decoded_rows (file : string) : Z := 480.

(** Modelled from the spec: the landmark matcher (section 4.1), which this
    file does not define.  The parts are scanned in order and the first
    landmark with the requested id is returned. *)
Definition find_landmark (ps : list FacePart) (id : N)
  : option FaceLandmark :=
  head (filter (fun l => bool_decide (feature_idx l = id))
               (flat_map landmarks ps)).

(** The distance in pixels between two points. *)
Definition euclidean (p q : Point2f) : F32.t :=
  let dx := F32.sub (pt_x p) (pt_x q) in
  let dy := F32.sub (pt_y p) (pt_y q) in
  F32.sqrt (F32.add (F32.mul dx dx) (F32.mul dy dy)).

(** Modelled from the spec: the scale normalizer (section 4.2), which this
    file does not define: the height or the diagonal of the bounding box.
    The box height stands in for the pupil and corner distances, whose
    landmark ids are declared outside this file. *)
Definition normalize (ann : FaceAnnotation) (measure : ErrorMeasure)
  : F32.t :=
  let w := rect_width (bbox_pos (bbox ann)) in
  let h := rect_height (bbox_pos (bbox ann)) in
  match measure with
  | diagonal => F32.sqrt (F32.add (F32.mul w w) (F32.mul h h))
  | _ => h
  end.

(** Modelled from the spec: [getNormalizedErrors] (section 4.3), a member
    of the class defined outside this file.  Every ground-truth landmark, in
    order, is looked up by id among the predicted landmarks, and a pair
    found contributes its id and its distance divided by the normalization
    distance. *)
Definition getNormalizedErrors (face ann : FaceAnnotation)
    (measure : ErrorMeasure) : list N * list F32.t :=
  let matched :=
    omap (fun gt =>
            match find_landmark (parts face) (feature_idx gt) with
            | Some pred =>
              Some (feature_idx gt,
                    F32.div (euclidean (pos pred) (pos gt))
                            (normalize ann measure))
            | None => None
            end)
         (flat_map landmarks (parts ann)) in
  (matched.*1, matched.*2).
End Sample.

Module Sample_edges.
Definition origin : Point2f :=
  {| pt_x := S754_zero false; pt_y := S754_zero false |}.
Definition right_of_origin : Point2f :=
  {| pt_x := F32.of_Z 10; pt_y := S754_zero false |}.
(** A visible landmark followed by a fully occluded one. *)
Definition A : FaceLandmark :=
  {| feature_idx := 1; pos := origin; occluded := S754_zero false |}.
Definition B : FaceLandmark :=
  {| feature_idx := 2; pos := right_of_origin; occluded := F32.of_Z 1 |}.
Definition box : FaceBox :=
  {| bbox_pos := {| rect_x := S754_zero false; rect_y := S754_zero false;
                    rect_width := F32.of_Z 100;
                    rect_height := F32.of_Z 100 |} |}.
Definition ann : FaceAnnotation :=
  {| filename := "img/face.png"; bbox := box;
     parts := [ {| landmarks := [A; B] |} ] |}.
End Sample_edges.

Module Sample_files.
Definition blank : Mat :=
  {| mat_source := "img/face.png"; mat_rows := 480; mat_drawn := [] |}.
(** A directory in which the first two names for [face.png] are taken. *)
Definition two_taken : gmap string Mat :=
  {[ "out/0_face.png" := blank; "out/1_face.png" := blank ]}.

Definition name_entry (dirpath face_filename : string) (k : nat)
  : string * Mat :=
  (candidate dirpath (basename face_filename) (N.of_nat k), blank).
(** A directory holding the names numbered below [bound] for the base
    name of [face_filename]: a finite set of paths. *)
Definition names_below (bound : N) (dirpath face_filename : string)
  : gmap string Mat :=
  list_to_map (name_entry dirpath face_filename <$> seq 0 (N.to_nat bound)).
(** A directory holding every one of the [2^32] names. *)
Definition all_names (dirpath face_filename : string) : gmap string Mat :=
  names_below UINT_MOD dirpath face_filename.
End Sample_files.

Module Sample_faces.
Definition zero : F32.t := S754_zero false.
Definition pt (x y : Z) : Point2f :=
  {| pt_x := F32.of_Z x; pt_y := F32.of_Z y |}.
Definition visible (id : N) (x y : Z) : FaceLandmark :=
  {| feature_idx := id; pos := pt x y; occluded := zero |}.
Definition box (w h : Z) : FaceBox :=
  {| bbox_pos := {| rect_x := zero; rect_y := zero;
                    rect_width := F32.of_Z w;
                    rect_height := F32.of_Z h |} |}.
Definition face_of (ls : list FaceLandmark) : FaceAnnotation :=
  {| filename := "img/face.png"; bbox := box 100 100;
     parts := [ {| landmarks := ls |} ] |}.

(** Ground truth: two landmarks, box height 100. *)
Definition ground_truth : FaceAnnotation :=
  face_of [visible 1 0 0; visible 2 10 0].
(** One pixel off at each landmark: errors 0.01 and 0.01 by height. *)
Definition close : FaceAnnotation := face_of [visible 1 1 0; visible 2 10 1].
(** 500 pixels off: errors 5.0 and 5.0 by height. *)
Definition far : FaceAnnotation :=
  face_of [visible 1 500 0; visible 2 510 0].
(** 600 pixels off: errors 6.0 and 6.0 by height. *)
Definition farther : FaceAnnotation :=
  face_of [visible 1 600 0; visible 2 610 0].
(** 400 pixels off: errors 4.0 and 4.0 by height, the threshold itself. *)
Definition borderline : FaceAnnotation :=
  face_of [visible 1 400 0; visible 2 410 0].
(** Only landmark 1 is detected, 500 pixels off: the one error is 5.0. *)
Definition one_match : FaceAnnotation := face_of [visible 1 500 0].
(** A detection none of whose landmark ids is in the ground truth. *)
Definition unmatched : FaceAnnotation := face_of [visible 7 3 3].

Definition by_height : FaceAlignment :=
  {| _measure := height; _database := "aflw" |}.
End Sample_faces.

Module Sample_errors.
(** An error computer that returns one error for two indices. *)
Definition one_error_short (face ann : FaceAnnotation)
    (measure : ErrorMeasure) : list N * list F32.t :=
  ([1%N; 2%N], [f1_0]).
(** An error computer that returns [2^32] indices and errors. *)
Definition too_many (face ann : FaceAnnotation) (measure : ErrorMeasure)
  : list N * list F32.t :=
  (repeat 0%N (N.to_nat UINT_MOD), repeat f1_0 (N.to_nat UINT_MOD)).
(** An error computer that returns the largest binary32 number twice. *)
Definition overflowing (face ann : FaceAnnotation)
    (measure : ErrorMeasure) : list N * list F32.t :=
  ([1%N; 2%N], [FLT_MAX; FLT_MAX]).
(** An error computer one of whose errors is not a number. *)
Definition with_nan (face ann : FaceAnnotation) (measure : ErrorMeasure)
  : list N * list F32.t :=
  ([1%N; 2%N], [f8_0; S754_nan]).
End Sample_errors.

(** Refute membership of a value in a list of distinct literals. *)
Ltac not_in_literals H :=
  repeat (apply elem_of_cons in H as [H|H]; [discriminate H|]);
  by apply elem_of_nil in H.

(** Prove membership in a list of literals. *)
Ltac in_literals :=
  solve [ repeat first [ by apply list_elem_of_here
                       | apply list_elem_of_further ] ].

(** * Properties *)

Example f8_bits : f8_0 = S754_finite false 8388608 (-20).
Proof. reflexivity. Qed.
Example f10_bits : f10_0 = S754_finite false 10485760 (-20).
Proof. reflexivity. Qed.
Example f05_bits : f0_5 = S754_finite false 8388608 (-24).
Proof. reflexivity. Qed.
Example parse_default :
  parseOptions ∅ {| _measure := pupils; _database := "" |}
  = {| _measure := height; _database := "aflw" |}.
Proof. reflexivity. Qed.

(** ** Option parsing *)

Lemma lookup_store_measure (parsed : gmap string string) :
  store parsed !! "measure" = Some (default "height" (parsed !! "measure")).
Proof.
  unfold store. rewrite lookup_union.
  destruct (parsed !! "measure") as [v|]; simpl.
  - by destruct (option_defaults !! "measure").
  - reflexivity.
Qed.

Lemma lookup_store_database (parsed : gmap string string) :
  store parsed !! "database" = Some (default "aflw" (parsed !! "database")).
Proof.
  unfold store. rewrite lookup_union.
  destruct (parsed !! "database") as [v|]; simpl.
  - by destruct (option_defaults !! "database").
  - reflexivity.
Qed.

(** What [parseOptions] leaves in the two members. *)
Lemma parseOptions_spec (parsed : gmap string string) (self : FaceAlignment) :
  parseOptions parsed self =
  {| _measure := measure_of_string (default "height" (parsed !! "measure"));
     _database := default "aflw" (parsed !! "database") |}.
Proof.
  unfold parseOptions.
  by rewrite lookup_store_measure, lookup_store_database.
Qed.

Lemma measure_of_string_other (s : string) :
  s ≠ "pupils" -> s ≠ "corners" -> s ≠ "height" ->
  measure_of_string s = diagonal.
Proof.
  intros Hp Hc Hh. unfold measure_of_string.
  apply String.eqb_neq in Hp, Hc, Hh. by rewrite Hp, Hc, Hh.
Qed.

(** C4 (as amended): a measure string outside pupils, corners, height and
    diagonal does not make option parsing fail; the measure selected for it
    is [diagonal], the last arm of the conditional chain, and the database
    is whatever the command line or its default says. *)
Theorem C4_unrecognised_measure_selects_diagonal
    (parsed : gmap string string) (self : FaceAlignment) (s : string) :
  parsed !! "measure" = Some s ->
  s ∉ ["pupils"; "corners"; "height"; "diagonal"] ->
  parseOptions parsed self =
  {| _measure := diagonal;
     _database := default "aflw" (parsed !! "database") |}.
Proof.
  intros Hs Hnot. rewrite parseOptions_spec, Hs. simpl.
  rewrite measure_of_string_other; [reflexivity|..];
    intros ->; apply Hnot; set_solver.
Qed.

Lemma C4_unrecognised_measure_selects_diagonal_witness :
  parseOptions {[ "measure" := "interocular" ]}
               {| _measure := pupils; _database := "" |}
  = {| _measure := diagonal; _database := "aflw" |}.
Proof.
  refine (C4_unrecognised_measure_selects_diagonal
            {[ "measure" := "interocular" ]}
            {| _measure := pupils; _database := "" |} "interocular" eq_refl _).
  intros H. not_in_literals H.
Defined.

(** Counterexample to C4 as the specification words it: the string
    "interocular" is none of the four measures, and the measure selected for
    it is not [height]. *)
Lemma C4_counterexample :
  ("interocular" ∉ ["pupils"; "corners"; "height"; "diagonal"]) /\
  (_measure (parseOptions {[ "measure" := "interocular" ]}
                          {| _measure := height; _database := "aflw" |})
   ≠ height).
Proof.
  split.
  - intros H. not_in_literals H.
  - discriminate.
Qed.

(** With no measure on the command line the default applies. *)
Lemma parseOptions_default_measure (parsed : gmap string string) self :
  parsed !! "measure" = None ->
  _measure (parseOptions parsed self) = height.
Proof. intros H. by rewrite parseOptions_spec, H. Qed.

(** ** The threshold *)

Lemma save_threshold_last_match (self : FaceAlignment) :
  save_threshold self = threshold_last_match (_measure self) (_database self).
Proof.
  unfold save_threshold, threshold_last_match.
  destruct self as [m d]; simpl.
  destruct m, (String.eqb d "wflw"); reflexivity.
Qed.

(** C1 (as amended): the threshold is selected by the last matching
    assignment of the cascade, that is by first match in the order
    measure == diagonal gives 3.0, then measure == height gives 4.0, then
    dataset == "wflw" gives 10.0, else 8.0; the dataset "wflw" gives 10.0
    exactly for the measures pupils and corners. *)
Theorem C1_threshold_last_assignment_wins (self : FaceAlignment) :
  save_threshold self =
    (if decide (_measure self = diagonal) then f3_0
     else if decide (_measure self = height) then f4_0
     else if String.eqb (_database self) "wflw" then f10_0
     else f8_0)
  /\ (_database self = "wflw" ->
      save_threshold self = f10_0 <-> _measure self ∈ [pupils; corners]).
Proof.
  split; [apply save_threshold_last_match|].
  intros Hd. rewrite save_threshold_last_match, Hd.
  unfold threshold_last_match.
  destruct (_measure self); simpl; split; intros H;
    first [ reflexivity | discriminate H | in_literals | not_in_literals H ].
Qed.

(** Counterexample to C1 as the specification words it: with dataset "wflw"
    and measure [height] the threshold is 4.0, not the 10.0 of the
    first-match table. *)
Lemma C1_counterexample :
  let self := {| _measure := height; _database := "wflw" |} in
  save_threshold self = f4_0 /\
  save_threshold self ≠ f10_0 /\
  save_threshold self
  ≠ threshold_first_match (_measure self) (_database self).
Proof. repeat split; discriminate. Qed.

(** ** Comparisons of floating-point numbers *)

Lemma pos_compare_cont_flip (p q : positive) :
  PosDef.Pos.compare_cont Eq q p = CompOpp (PosDef.Pos.compare_cont Eq p q).
Proof. symmetry. exact (Pos.compare_cont_antisym p q Eq). Qed.

Lemma SFcompare_antisym (x y : spec_float) :
  SFcompare y x = CompOpp <$> SFcompare x y.
Proof.
  destruct x as [sx|sx| |sx mx ex], y as [sy|sy| |sy my ey]; simpl;
    try reflexivity;
    try (destruct sx; reflexivity); try (destruct sy; reflexivity);
    try (destruct sx, sy; reflexivity).
  destruct sx, sy; simpl; try reflexivity;
    rewrite (Z.compare_antisym ex ey);
    destruct (ex ?= ey)%Z; simpl; try reflexivity;
    by rewrite (pos_compare_cont_flip mx my).
Qed.

(** Away from NaN, "not below" is "at least". *)
Lemma F32_not_lt_ge (x y : F32.t) :
  F32.is_nan x = false -> F32.is_nan y = false ->
  negb (F32.lt x y) = F32.ge x y.
Proof.
  unfold F32.lt, F32.ge, SFltb, SFleb. intros Hx Hy.
  rewrite (SFcompare_antisym x y).
  destruct x, y; try discriminate Hx; try discriminate Hy; simpl;
    repeat match goal with
           | |- context [match ?c with _ => _ end] => destruct c; simpl
           end; reflexivity.
Qed.

(** A NaN is below nothing and above nothing. *)
Lemma F32_gt_nan_l (y : F32.t) : F32.gt S754_nan y = false.
Proof. unfold F32.gt, SFltb. by destruct y. Qed.

Lemma F32_lt_nan_l (y : F32.t) : F32.lt S754_nan y = false.
Proof. reflexivity. Qed.

(** ** The skeleton drawn for a part *)

Lemma draw_landmarks_skeleton normal occl radius thickness ls canvas :
  draw_landmarks normal occl radius thickness ls canvas
  = canvas ++ skeleton normal occl radius thickness ls.
Proof.
  revert canvas. induction ls as [|it rest IH]; intros canvas; simpl.
  - by rewrite app_nil_r.
  - rewrite IH. destruct rest as [|next rest']; simpl.
    + by rewrite <- app_assoc.
    + destruct (F32.lt (occluded it) f0_5 || F32.lt (occluded next) f0_5);
        by rewrite <- !app_assoc.
Qed.

Lemma draw_parts_skeleton normal occl radius thickness ps canvas :
  draw_parts normal occl radius thickness ps canvas
  = canvas
    ++ flat_map (fun part => skeleton normal occl radius thickness
                               (landmarks part)) ps.
Proof.
  unfold draw_parts. revert canvas.
  induction ps as [|part ps IH]; intros canvas; simpl.
  - by rewrite app_nil_r.
  - by rewrite IH, draw_landmarks_skeleton, <- app_assoc.
Qed.

Lemma draw_faces_skeleton normal occl radius thickness faces canvas :
  draw_faces normal occl radius thickness faces canvas
  = canvas
    ++ flat_map (fun face =>
         flat_map (fun part => skeleton normal occl radius thickness
                                 (landmarks part)) (parts face)) faces.
Proof.
  unfold draw_faces. revert canvas.
  induction faces as [|face faces IH]; intros canvas; simpl.
  - by rewrite app_nil_r.
  - by rewrite IH, draw_parts_skeleton, <- app_assoc.
Qed.

Lemma consecutive_cons {T : Type} (A B x : T) (ls : list T) :
  consecutive A B (x :: ls) <->
  (x = A /\ head ls = Some B) \/ consecutive A B ls.
Proof.
  unfold consecutive. split.
  - intros (pre & post & H). destruct pre as [|y pre]; simpl in H.
    + injection H as -> ->. by left.
    + injection H as -> ->. right. by exists pre, post.
  - intros [[-> H]|(pre & post & ->)].
    + destruct ls as [|y ls]; [discriminate H|].
      injection H as ->. by exists [], ls.
    + by exists (x :: pre), post.
Qed.

Lemma line_tone_edge_tone normal occl (A B : FaceLandmark) :
  F32.is_nan (occluded A) = false -> F32.is_nan (occluded B) = false ->
  (if F32.lt (occluded A) f0_5 || F32.lt (occluded B) f0_5
   then normal else occl) = edge_tone normal occl A B.
Proof.
  intros HA HB. unfold edge_tone.
  rewrite <- (F32_not_lt_ge (occluded A) f0_5) by done.
  rewrite <- (F32_not_lt_ge (occluded B) f0_5) by done.
  by destruct (F32.lt (occluded A) f0_5), (F32.lt (occluded B) f0_5).
Qed.

(** The lines of a skeleton are the edges between consecutive landmarks,
    each in the tone the two occlusion degrees select. *)
Lemma skeleton_lines normal occl radius thickness ls p q c t :
  Forall (fun l => F32.is_nan (occluded l) = false) ls ->
  cv_line p q c t ∈ skeleton normal occl radius thickness ls <->
  exists A B, consecutive A B ls /\ p = pos A /\ q = pos B
              /\ c = edge_tone normal occl A B /\ t = thickness.
Proof.
  induction ls as [|it rest IH]; intros Hnan.
  - simpl. split.
    + intros H. by apply elem_of_nil in H.
    + intros (A & B & (pre & post & H) & _). by destruct pre.
  - apply Forall_cons in Hnan as [Hit Hrest]. specialize (IH Hrest).
    cbn [skeleton]. rewrite elem_of_app, elem_of_cons, IH.
    setoid_rewrite consecutive_cons. split.
    + intros [H|[H|(A & B & H)]].
      * destruct rest as [|next rest']; [by apply elem_of_nil in H|].
        apply list_elem_of_singleton in H. injection H as -> -> -> ->.
        apply Forall_cons in Hrest as [Hnext _].
        exists it, next. rewrite line_tone_edge_tone by done.
        split; [left; split; reflexivity | repeat split].
      * discriminate H.
      * destruct H as (Hc & -> & -> & -> & ->).
        exists A, B. split; [by right | repeat split].
    + intros (A & B & [[-> Hhd]|H] & -> & -> & -> & ->).
      * left. destruct rest as [|next rest']; [discriminate Hhd|].
        injection Hhd as ->. apply Forall_cons in Hrest as [Hnext _].
        rewrite line_tone_edge_tone by done. apply list_elem_of_here.
      * right; right. exists A, B. split; [exact H | repeat split].
Qed.

Lemma elem_of_flat_map_iff {A B : Type} (f : A -> list B) (l : list A) (y : B) :
  y ∈ flat_map f l <-> exists x, x ∈ l /\ y ∈ f x.
Proof.
  rewrite list_elem_of_In, in_flat_map.
  split; intros (x & Hx & Hy); exists x;
    by rewrite ?list_elem_of_In in *.
Qed.

(** C2 (as amended): the lines drawn for the parts of an annotation are
    exactly the edges between consecutive landmarks A and B of a part, and
    the edge is in the "occluded" tone if and only if A.occluded >= 0.5 and
    B.occluded >= 0.5 (both ends, not either), in the "normal" tone
    otherwise.  The four drawing loops of [show] and [save] are this code
    with their pair of tones. *)
Theorem C2_edge_occluded_iff_both_ends_occluded
    (normal occl : Scalar) (radius thickness : Z) (ps : list FacePart)
    (p q : Point2f) (c : Scalar) (t : Z) :
  occlusions_are_numbers ps ->
  cv_line p q c t ∈ draw_parts normal occl radius thickness ps [] <->
  exists part A B,
    part ∈ ps /\ consecutive A B (landmarks part) /\
    p = pos A /\ q = pos B /\ t = thickness /\
    c = (if F32.ge (occluded A) f0_5 && F32.ge (occluded B) f0_5
         then occl else normal).
Proof.
  intros Hnum. rewrite draw_parts_skeleton, app_nil_l, elem_of_flat_map_iff.
  split.
  - intros (part & Hpart & Hline). exists part.
    apply skeleton_lines in Hline as (A & B & Hc & -> & -> & -> & ->).
    + exists A, B. by repeat split.
    + unfold occlusions_are_numbers in Hnum.
      rewrite Forall_forall in Hnum. by apply Hnum.
  - intros (part & A & B & Hpart & Hc & -> & -> & -> & ->).
    exists part. split; [done|]. apply skeleton_lines.
    + unfold occlusions_are_numbers in Hnum.
      rewrite Forall_forall in Hnum. by apply Hnum.
    + exists A, B. by repeat split.
Qed.

Lemma C2_edge_occluded_iff_both_ends_occluded_witness :
  cv_line Sample_edges.origin Sample_edges.right_of_origin cyan_color 2
  ∈ draw_parts cyan_color blue_color 3 2 (parts Sample_edges.ann) [].
Proof.
  refine (proj2 (C2_edge_occluded_iff_both_ends_occluded
                   cyan_color blue_color 3 2 (parts Sample_edges.ann)
                   Sample_edges.origin Sample_edges.right_of_origin
                   cyan_color 2 _) _).
  - repeat constructor.
  - exists {| landmarks := [Sample_edges.A; Sample_edges.B] |},
      Sample_edges.A, Sample_edges.B.
    split; [apply list_elem_of_here|].
    split; [by exists [], []|].
    by repeat split.
Defined.

(** Counterexample to C2 as the specification words it: B is occluded
    (1.0 >= 0.5), yet the edge from A to B is drawn in the normal tone, by
    [show] and by [save] alike, and no edge is drawn in the occluded tone. *)
Lemma C2_counterexample :
  let A := Sample_edges.A in
  let B := Sample_edges.B in
  (F32.ge (occluded A) f0_5 || F32.ge (occluded B) f0_5 = true) /\
  show Sample.round_to_int [] [] Sample_edges.ann
  = [ cv_line (pos A) (pos B) cyan_color 2;
      cv_circle (pos A) 3 cyan_color (-1);
      cv_circle (pos B) 3 blue_color (-1) ] /\
  mat_drawn (save_prepare Sample.decoded_rows Sample.round_to_int
                          Sample_edges.ann)
  = [ cv_line (pos A) (pos B) cyan_color 2;
      cv_circle (pos A) 3 cyan_color (-1);
      cv_circle (pos B) 3 blue_color (-1) ].
Proof. repeat split. Qed.

(** ** Strings *)

Lemma string_app_cons (a : ascii) (s t : string) :
  String a s +:+ t = String a (s +:+ t).
Proof. reflexivity. Qed.

Lemma string_app_assoc (s1 s2 s3 : string) :
  (s1 +:+ s2) +:+ s3 = s1 +:+ (s2 +:+ s3).
Proof.
  induction s1 as [|a s1 IH]; [done|].
  by rewrite !string_app_cons, IH.
Qed.

Lemma string_app_length (s1 s2 : string) :
  String.length (s1 +:+ s2) = String.length s1 + String.length s2.
Proof.
  induction s1 as [|a s1 IH]; [done|].
  rewrite string_app_cons. simpl. by rewrite IH.
Qed.

(** Two strings that agree once the same suffix is attached are equal. *)
Lemma string_app_inj_r (s1 s2 t : string) : s1 +:+ t = s2 +:+ t -> s1 = s2.
Proof.
  revert s2. induction s1 as [|a s1 IH]; intros [|b s2] H.
  - reflexivity.
  - apply (f_equal String.length) in H.
    rewrite !string_app_length in H. simpl in H. lia.
  - apply (f_equal String.length) in H.
    rewrite !string_app_length in H. simpl in H. lia.
  - rewrite !string_app_cons in H. injection H as -> H.
    f_equal. by apply IH.
Qed.

Lemma string_drop_app_length (pre post : string) :
  string_drop (String.length pre) (pre +:+ post) = post.
Proof. induction pre as [|a pre IH]; [done|]. exact IH. Qed.

(** [find_last_of], read off the text: either the character does not occur and
    the answer so far stands, or the text splits at its last occurrence. *)
Lemma find_last_of_from_spec (s : string) (c : ascii) (i acc : N) :
  (occurs c s = false /\ find_last_of_from s c i acc = acc) \/
  (exists pre post,
      s = pre +:+ String c post /\ occurs c post = false /\
      find_last_of_from s c i acc = (i + N.of_nat (String.length pre))%N).
Proof.
  revert i acc. induction s as [|a s IH]; intros i acc; simpl.
  - by left.
  - destruct (IH (i + 1)%N (if Ascii.eqb a c then i else acc))
      as [[Hno Hf]|(pre & post & -> & Hno & Hf)].
    + destruct (Ascii.eqb_spec a c) as [->|Hne]; simpl.
      * right. exists "", s. rewrite Hf. simpl.
        repeat split; [done|]. by rewrite N.add_0_r.
      * left. by rewrite Hf.
    + right. exists (String a pre), post. rewrite Hf. simpl.
      repeat split; [done|]. lia.
Qed.

Lemma size_succ_npos : size_succ npos = 0%N.
Proof. reflexivity. Qed.

(** The position handed to [substr] never exceeds the size of the string, so
    the [std::out_of_range] of [substr] is not thrown by [save]. *)
Lemma substr_after_last_slash_defined (s : string) :
  is_Some (substr s (size_succ (find_last_of s "/"))).
Proof.
  unfold substr, find_last_of.
  assert (size_succ (find_last_of_from s "/" 0 npos)
          ≤ N.of_nat (String.length s))%N as Hle.
  { destruct (find_last_of_from_spec s "/" 0 npos)
      as [[_ ->]|(pre & post & -> & _ & ->)].
    - rewrite size_succ_npos. lia.
    - rewrite string_app_length. cbn [String.length].
      unfold size_succ.
      etrans; [apply N.Div0.mod_le|]. lia. }
  apply N.ltb_ge in Hle. rewrite Hle. by eexists.
Qed.

(** For a string a [std::string] can hold, what [substr] returns is the
    base name: the text after the last slash, or the whole text when there
    is no slash. *)
Lemma substr_after_last_slash_basename (s base : string) :
  (N.of_nat (String.length s) < SIZE_MOD)%N ->
  substr s (size_succ (find_last_of s "/")) = Some base ->
  occurs "/" base = false /\
  (s = base \/ exists dir, s = dir +:+ String "/" base).
Proof.
  unfold substr, find_last_of. intros Hlen.
  destruct (find_last_of_from_spec s "/" 0 npos)
    as [[Hno ->]|(pre & post & -> & Hno & ->)].
  - rewrite size_succ_npos, (proj2 (N.ltb_ge _ _)) by lia.
    simpl. intros [= <-]. split; [done|by left].
  - rewrite string_app_length in Hlen. cbn [String.length] in Hlen.
    unfold size_succ. rewrite N.mod_small by lia.
    rewrite string_app_length.
    rewrite (proj2 (N.ltb_ge _ _)) by (simpl; lia).
    replace (N.to_nat (0 + N.of_nat (String.length pre) + 1))
      with (String.length (pre +:+ "/")).
    2:{ rewrite string_app_length. simpl. lia. }
    simpl. replace (pre +:+ String "/" post) with ((pre +:+ "/") +:+ post).
    2:{ by rewrite string_app_assoc. }
    rewrite string_drop_app_length. intros [= <-].
    split; [done|]. right. exists pre. by rewrite string_app_assoc.
Qed.

Lemma candidate_inj (dirpath base : string) (n m : N) :
  candidate dirpath base n = candidate dirpath base m -> n = m.
Proof.
  unfold candidate, to_string. rewrite !string_app_assoc. intros H.
  apply (inj (String.app dirpath)) in H.
  rewrite <- !string_app_assoc in H.
  apply string_app_inj_r, string_app_inj_r in H.
  by apply (inj pretty) in H.
Qed.

Lemma substr_basename (s : string) :
  substr s (size_succ (find_last_of s "/")) = Some (basename s).
Proof.
  unfold basename.
  by destruct (substr_after_last_slash_defined s) as [base ->].
Qed.

(** ** The probing loop *)

Section Probe.
Variable fs : gmap string Mat.
Variable dirpath face_filename : string.

Local Abbreviation found := (find_last_of face_filename "/").
Local Abbreviation path :=
  (candidate dirpath (basename face_filename)).

Lemma probe_filepath_step (fuel : nat) (num : N) :
  probe_filepath (S fuel) fs dirpath face_filename found num =
  if fs_exists fs (path num)
  then probe_filepath fuel fs dirpath face_filename found (uint_succ num)
  else Ret (path num).
Proof. simpl. by rewrite substr_basename. Qed.

(** More fuel does not change an answer. *)
Lemma probe_filepath_mono (fuel fuel' : nat) (num : N) (filepath : string) :
  probe_filepath fuel fs dirpath face_filename found num = Ret filepath ->
  fuel <= fuel' ->
  probe_filepath fuel' fs dirpath face_filename found num = Ret filepath.
Proof.
  revert fuel' num. induction fuel as [|fuel IH]; intros fuel' num H Hle.
  - discriminate H.
  - destruct fuel' as [|fuel']; [lia|].
    rewrite probe_filepath_step in *.
    destruct (fs_exists fs (path num)); [|exact H].
    apply IH; [exact H|lia].
Qed.

(** The loop walks up from [num] over taken names and stops at the first
    free one. *)
Lemma probe_filepath_scan (k : N) :
  forall (fuel : nat) (num : N),
    N.to_nat k < fuel ->
    (num + k < UINT_MOD)%N ->
    (forall j, (j < k)%N -> fs_exists fs (path (num + j)) = true) ->
    fs_exists fs (path (num + k)) = false ->
    probe_filepath fuel fs dirpath face_filename found num
    = Ret (path (num + k)).
Proof.
  induction k as [|k IH] using N.peano_ind; intros fuel num Hfuel Hk Hpre Hfree.
  - destruct fuel as [|fuel]; [lia|].
    rewrite probe_filepath_step. rewrite N.add_0_r in *. by rewrite Hfree.
  - destruct fuel as [|fuel]; [lia|].
    rewrite probe_filepath_step.
    specialize (Hpre 0%N) as H0. rewrite N.add_0_r in H0.
    rewrite H0 by lia.
    assert (uint_succ num = num + 1)%N as ->.
    { unfold uint_succ. apply N.mod_small. lia. }
    replace (num + N.succ k)%N with (num + 1 + k)%N in * by lia.
    apply IH; [lia|lia| |exact Hfree].
    intros j Hj. replace (num + 1 + j)%N with (num + N.succ j)%N by lia.
    apply Hpre. lia.
Qed.

(** When every one of the [2^32] names is taken the counter wraps around
    and the loop goes on. *)
Lemma probe_filepath_no_free_name :
  (forall n, (n < UINT_MOD)%N -> fs_exists fs (path n) = true) ->
  forall (fuel : nat) (num : N),
    (num < UINT_MOD)%N ->
    probe_filepath fuel fs dirpath face_filename found num = NoFuel.
Proof.
  intros Hall. induction fuel as [|fuel IH]; intros num Hnum; [done|].
  rewrite probe_filepath_step, Hall by done.
  apply IH. unfold uint_succ. apply N.mod_lt. done.
Qed.

(** A bounded search either finds the least free name or finds them all
    taken. *)
Lemma least_free_name (bound : N) :
  (exists n, (n < bound)%N /\ fs_exists fs (path n) = false /\
             forall m, (m < n)%N -> fs_exists fs (path m) = true)
  \/ (forall n, (n < bound)%N -> fs_exists fs (path n) = true).
Proof.
  induction bound as [|bound IH] using N.peano_ind.
  - right. intros n Hn. lia.
  - destruct IH as [(n & Hn & Hfree & Hleast)|Hall].
    + left. exists n. split; [lia|done].
    + destruct (fs_exists fs (path bound)) eqn:Hb.
      * right. intros n Hn.
        destruct (decide (n = bound)) as [->|Hne]; [done|].
        apply Hall. lia.
      * left. exists bound. split; [lia|done].
Qed.

(** Enough fuel gives the answer: the least free name, found after as many
    turns as there are taken names below it. *)
Lemma probe_filepath_finds_least (n : N) :
  (n < UINT_MOD)%N ->
  fs_exists fs (path n) = false ->
  (forall m, (m < n)%N -> fs_exists fs (path m) = true) ->
  forall fuel, N.to_nat n < fuel ->
    probe_filepath fuel fs dirpath face_filename found 0 = Ret (path n).
Proof.
  intros Hn Hfree Hleast fuel Hfuel.
  apply (probe_filepath_scan n fuel 0%N); done.
Qed.

(** What an answer of the loop is, whatever the fuel that produced it. *)
Lemma probe_filepath_ret (fuel : nat) (filepath : string) :
  probe_filepath fuel fs dirpath face_filename found 0 = Ret filepath ->
  exists n, (n < UINT_MOD)%N /\ filepath = path n /\
            fs_exists fs (path n) = false /\
            forall m, (m < n)%N -> fs_exists fs (path m) = true.
Proof.
  intros Hret.
  destruct (least_free_name UINT_MOD) as [(n & Hn & Hfree & Hleast)|Hall].
  - exists n. repeat split; try done.
    pose proof (probe_filepath_finds_least n Hn Hfree Hleast
                  (S (fuel + N.to_nat n)) ltac:(lia)) as Hbig.
    apply (probe_filepath_mono _ (S (fuel + N.to_nat n))) in Hret; [|lia].
    congruence.
  - rewrite probe_filepath_no_free_name in Hret; [discriminate|done..].
Qed.

(** The loop never leaves by the exception of [substr]. *)
Lemma probe_filepath_no_throw (fuel : nat) (num : N) :
  probe_filepath fuel fs dirpath face_filename found num ≠ OutOfRange.
Proof.
  revert num. induction fuel as [|fuel IH]; intros num; [done|].
  rewrite probe_filepath_step. by destruct (fs_exists fs (path num)).
Qed.
End Probe.

Lemma fs_exists_false (fs : gmap string Mat) (filepath : string) :
  fs_exists fs filepath = false <-> fs !! filepath = None.
Proof.
  unfold fs_exists. rewrite bool_decide_eq_false.
  by rewrite eq_None_not_Some.
Qed.

Lemma fs_exists_true (fs : gmap string Mat) (filepath : string) :
  fs_exists fs filepath = true <-> filepath ∈ dom fs.
Proof. unfold fs_exists. by rewrite bool_decide_eq_true, elem_of_dom. Qed.

(** A directory listing of fewer than [2^32] entries leaves one of the
    [2^32] names free: the names are pairwise different. *)
Lemma free_name_by_counting (fs : gmap string Mat)
    (dirpath face_filename : string) :
  (N.of_nat (size fs) < UINT_MOD)%N ->
  exists n, (n < UINT_MOD)%N /\
            fs !! candidate dirpath (basename face_filename) n = None.
Proof.
  intros Hsize.
  destruct (least_free_name fs dirpath face_filename UINT_MOD)
    as [(n & Hn & Hfree & _)|Hall].
  { exists n. by rewrite <- fs_exists_false. }
  exfalso.
  set (names := (fun k => candidate dirpath (basename face_filename)
                                    (N.of_nat k))
                <$> seq 0 (N.to_nat UINT_MOD)).
  assert (NoDup names) as Hnodup.
  { apply NoDup_fmap_2; [|apply NoDup_seq].
    intros j k Hjk. apply candidate_inj in Hjk. lia. }
  assert (names ⊆+ elements (dom fs)) as Hsub.
  { apply NoDup_submseteq; [exact Hnodup|].
    intros x Hx. apply list_elem_of_fmap in Hx as (k & -> & Hk).
    apply elem_of_seq in Hk. apply elem_of_elements, fs_exists_true, Hall.
    lia. }
  apply submseteq_length in Hsub.
  unfold names in Hsub. rewrite length_fmap, length_seq in Hsub.
  change (length (elements (dom fs))) with (size (dom fs)) in Hsub.
  rewrite size_dom in Hsub. lia.
Qed.

(** C10 (as amended): the [unsigned int] probe counter has [2^32] values, so
    the loop visits at most [2^32] names.  For every (finite) set of existing
    paths that leaves at least one of these names free, and so in particular
    for every set of fewer than [2^32] paths, the loop terminates within
    [2^32] turns: from that much fuel on it returns one and the same path,
    and that path is not a member of the set. *)
Theorem C10_probe_terminates_when_a_name_is_free
    (fs : gmap string Mat) (dirpath face_filename : string) :
  (N.of_nat (size fs) < UINT_MOD)%N \/
  (exists n, (n < UINT_MOD)%N /\
             candidate dirpath (basename face_filename) n ∉ dom fs) ->
  exists (turns : nat) (filepath : string),
    (N.of_nat turns <= UINT_MOD)%N /\
    (filepath ∉ dom fs) /\
    forall fuel, turns <= fuel ->
      probe_filepath fuel fs dirpath face_filename
                     (find_last_of face_filename "/") 0
      = Ret filepath.
Proof.
  intros H.
  assert (exists n, (n < UINT_MOD)%N /\
            fs !! candidate dirpath (basename face_filename) n = None)
    as (n0 & Hn0 & Hfree0).
  { destruct H as [Hsize|(n & Hn & Hfree)].
    - by apply free_name_by_counting.
    - exists n. split; [done|]. by apply not_elem_of_dom. }
  destruct (least_free_name fs dirpath face_filename UINT_MOD)
    as [(n & Hn & Hfree & Hleast)|Hall].
  - exists (S (N.to_nat n)),
      (candidate dirpath (basename face_filename) n).
    split; [lia|]. split.
    + by apply not_elem_of_dom, fs_exists_false.
    + intros fuel Hfuel.
      apply probe_filepath_finds_least; [done..|lia].
  - apply fs_exists_false in Hfree0. rewrite Hall in Hfree0; done.
Qed.

Lemma names_below_taken (bound : N) (dirpath face_filename : string)
    (n : N) :
  (n < bound)%N ->
  fs_exists (Sample_files.names_below bound dirpath face_filename)
            (candidate dirpath (basename face_filename) n) = true.
Proof.
  intros Hn. apply fs_exists_true, elem_of_dom.
  destruct (Sample_files.names_below bound dirpath face_filename
              !! candidate dirpath (basename face_filename) n) eqn:Hl;
    [by eexists|].
  exfalso. apply not_elem_of_list_to_map_2 in Hl. apply Hl.
  rewrite <- list_fmap_compose. apply list_elem_of_fmap.
  exists (N.to_nat n). split.
  - unfold compose, Sample_files.name_entry. cbn [fst]. by rewrite N2Nat.id.
  - apply elem_of_seq. lia.
Qed.

Lemma C10_probe_terminates_when_a_name_is_free_witness :
  exists (turns : nat) (filepath : string),
    (N.of_nat turns <= UINT_MOD)%N /\
    (filepath ∉ dom Sample_files.two_taken) /\
    forall fuel, turns <= fuel ->
      probe_filepath fuel Sample_files.two_taken "out/" "img/face.png"
                     (find_last_of "img/face.png" "/") 0
      = Ret filepath.
Proof.
  refine (C10_probe_terminates_when_a_name_is_free
            Sample_files.two_taken "out/" "img/face.png" (or_introl _)).
  reflexivity.
Defined.

Example probe_two_taken :
  probe_filepath 3 Sample_files.two_taken "out/" "img/face.png"
                 (find_last_of "img/face.png" "/") 0
  = Ret "out/2_face.png".
Proof. reflexivity. Qed.

(** ** Writing a hard case *)

Lemma least_free_number_exists (fs : gmap string Mat)
    (dirpath face_filename : string) :
  (N.of_nat (size fs) < UINT_MOD)%N ->
  exists n, least_free_number fs
              (candidate dirpath (basename face_filename)) n.
Proof.
  intros Hsize.
  destruct (free_name_by_counting fs dirpath face_filename Hsize)
    as (n0 & Hn0 & Hfree0).
  destruct (least_free_name fs dirpath face_filename UINT_MOD)
    as [(n & Hn & Hfree & Hleast)|Hall].
  - exists n. repeat split; [done| |].
    + by apply not_elem_of_dom, fs_exists_false.
    + intros m Hm. by apply fs_exists_true, Hleast.
  - apply fs_exists_false in Hfree0. rewrite Hall in Hfree0; done.
Qed.

(** Whatever the fuel, a hard case that is written goes to the least free
    name, and nothing else changes. *)
Lemma write_hard_case_ret (fuel : nat) (dirpath : string)
    (face : FaceAnnotation) (image : Mat) (fs fs' : gmap string Mat) :
  write_hard_case fuel dirpath face image fs = Ret fs' ->
  exists n,
    least_free_number fs (candidate dirpath (basename (filename face))) n /\
    fs' = <[candidate dirpath (basename (filename face)) n := image]> fs.
Proof.
  unfold write_hard_case. intros H.
  destruct (probe_filepath fuel fs dirpath (filename face)
              (find_last_of (filename face) "/") 0) as [filepath| |] eqn:Hp;
    try discriminate H.
  apply probe_filepath_ret in Hp as (n & Hn & -> & Hfree & Hleast).
  injection H as <-. exists n. split; [|reflexivity].
  repeat split; [done| |].
  - by apply not_elem_of_dom, fs_exists_false.
  - intros m Hm. by apply fs_exists_true, Hleast.
Qed.

(** With enough fuel the least free name is found and written. *)
Lemma write_hard_case_least (dirpath : string) (face : FaceAnnotation)
    (image : Mat) (fs : gmap string Mat) (n : N) (fuel : nat) :
  least_free_number fs (candidate dirpath (basename (filename face))) n ->
  N.to_nat n < fuel ->
  write_hard_case fuel dirpath face image fs
  = Ret (<[candidate dirpath (basename (filename face)) n := image]> fs).
Proof.
  intros (Hn & Hfree & Hleast) Hfuel. unfold write_hard_case.
  rewrite (probe_filepath_finds_least fs dirpath (filename face) n);
    [reflexivity|done| | |done].
  - by apply fs_exists_false, not_elem_of_dom.
  - intros m Hm. by apply fs_exists_true, Hleast.
Qed.

Lemma basename_spec (s : string) :
  (N.of_nat (String.length s) < SIZE_MOD)%N ->
  occurs "/" (basename s) = false /\
  (s = basename s \/ exists dir, s = dir +:+ String "/" (basename s)).
Proof.
  intros Hlen.
  apply (substr_after_last_slash_basename s (basename s) Hlen),
    substr_basename.
Qed.

(** Two hard cases of one file name written one after the other: two
    different files, each holding its own image, and the files of before
    untouched. *)
Lemma two_hard_cases_distinct (dirpath : string) (face1 face2 : FaceAnnotation)
    (image1 image2 : Mat) (fuel1 fuel2 : nat) (fs fs1 fs2 : gmap string Mat) :
  filename face1 = filename face2 ->
  write_hard_case fuel1 dirpath face1 image1 fs = Ret fs1 ->
  write_hard_case fuel2 dirpath face2 image2 fs1 = Ret fs2 ->
  exists n1 n2,
    let path := candidate dirpath (basename (filename face1)) in
    least_free_number fs path n1 /\
    least_free_number fs1 path n2 /\
    fs1 = <[path n1 := image1]> fs /\
    fs2 = <[path n2 := image2]> fs1 /\
    path n1 ≠ path n2 /\
    fs2 !! path n1 = Some image1 /\
    fs2 !! path n2 = Some image2 /\
    (forall q, q ∈ dom fs -> fs2 !! q = fs !! q).
Proof.
  intros Hname H1 H2.
  apply write_hard_case_ret in H1 as (n1 & Hn1 & ->).
  apply write_hard_case_ret in H2 as (n2 & Hn2 & ->).
  rewrite <- Hname in *.
  set (path := candidate dirpath (basename (filename face1))) in *.
  exists n1, n2. cbv zeta.
  assert (path n1 ≠ path n2) as Hne.
  { intros Heq. destruct Hn2 as (_ & Hfree2 & _). apply Hfree2.
    rewrite <- Heq. apply elem_of_dom. rewrite lookup_insert_eq. by eexists. }
  split; [exact Hn1|]. split; [exact Hn2|].
  split; [reflexivity|]. split; [reflexivity|]. split; [exact Hne|].
  split; [|split].
  - rewrite lookup_insert_ne by done. apply lookup_insert_eq.
  - apply lookup_insert_eq.
  - intros q Hq.
    rewrite !lookup_insert_ne; [done| |].
    + intros <-. by destruct Hn1 as (_ & Hfree1 & _).
    + intros <-. destruct Hn2 as (_ & Hfree2 & _). apply Hfree2.
      apply elem_of_dom. rewrite lookup_insert_ne by done.
      by apply elem_of_dom.
Qed.

(** In a directory with room for two more files both writes end. *)
Lemma two_hard_cases_total (dirpath : string) (face1 face2 : FaceAnnotation)
    (image1 image2 : Mat) (fs : gmap string Mat) :
  (N.of_nat (size fs) + 1 < UINT_MOD)%N ->
  exists turns, forall fuel, turns <= fuel ->
    exists fs1 fs2,
      write_hard_case fuel dirpath face1 image1 fs = Ret fs1 /\
      write_hard_case fuel dirpath face2 image2 fs1 = Ret fs2.
Proof.
  intros Hsize.
  destruct (least_free_number_exists fs dirpath (filename face1))
    as (n1 & Hn1); [lia|].
  set (fs1 := <[candidate dirpath (basename (filename face1)) n1
                := image1]> fs).
  destruct (least_free_number_exists fs1 dirpath (filename face2))
    as (n2 & Hn2).
  { destruct Hn1 as (_ & Hfree1 & _). apply not_elem_of_dom in Hfree1.
    unfold fs1. rewrite map_size_insert_None by done. lia. }
  exists (S (N.to_nat n1 + N.to_nat n2)). intros fuel Hfuel.
  exists fs1. eexists. split.
  - apply write_hard_case_least; [exact Hn1|lia].
  - apply write_hard_case_least; [exact Hn2|lia].
Qed.

(** C6: a hard case that is persisted is written to the text of the target
    directory followed by <n>, an underscore and the base name of the face's
    file name (the text after its last slash), where n is the smallest
    number, counted up from 0, whose path does not exist yet; nothing else
    in the directory changes.  Consequently two hard cases of the same file
    name, persisted one after the other, end up in two different files that
    both exist, each with its own image, and no file that existed before is
    overwritten; in a directory of fewer than [2^32 - 1] files both writes
    do end. *)
Theorem C6_hard_cases_go_to_least_free_names
    (fs : gmap string Mat) (dirpath : string) :
  (forall fuel face image fs',
      write_hard_case fuel dirpath face image fs = Ret fs' ->
      exists n,
        least_free_number fs (candidate dirpath (basename (filename face))) n
        /\ fs' = <[((dirpath +:+ to_string n) +:+ "_")
                    +:+ basename (filename face) := image]> fs)
  /\
  (forall face,
      (N.of_nat (String.length (filename face)) < SIZE_MOD)%N ->
      occurs "/" (basename (filename face)) = false /\
      (filename face = basename (filename face) \/
       exists dir,
         filename face = dir +:+ String "/" (basename (filename face))))
  /\
  (forall face1 face2 image1 image2 fuel1 fuel2 fs1 fs2,
      filename face1 = filename face2 ->
      write_hard_case fuel1 dirpath face1 image1 fs = Ret fs1 ->
      write_hard_case fuel2 dirpath face2 image2 fs1 = Ret fs2 ->
      exists n1 n2,
        let path := candidate dirpath (basename (filename face1)) in
        least_free_number fs path n1 /\
        least_free_number fs1 path n2 /\
        fs1 = <[path n1 := image1]> fs /\
        fs2 = <[path n2 := image2]> fs1 /\
        path n1 ≠ path n2 /\
        fs2 !! path n1 = Some image1 /\
        fs2 !! path n2 = Some image2 /\
        (forall q, q ∈ dom fs -> fs2 !! q = fs !! q))
  /\
  (forall face1 face2 image1 image2,
      (N.of_nat (size fs) + 1 < UINT_MOD)%N ->
      exists turns, forall fuel, turns <= fuel ->
        exists fs1 fs2,
          write_hard_case fuel dirpath face1 image1 fs = Ret fs1 /\
          write_hard_case fuel dirpath face2 image2 fs1 = Ret fs2).
Proof.
  split; [|split; [|split]].
  - intros fuel face image fs'. apply write_hard_case_ret.
  - intros face. apply basename_spec.
  - intros face1 face2 image1 image2 fuel1 fuel2 fs1 fs2.
    apply two_hard_cases_distinct.
  - intros face1 face2 image1 image2. apply two_hard_cases_total.
Qed.

(** ** One face of the loop of [save] *)

Section SaveFace.
Variable getNormalizedErrors :
  FaceAnnotation -> FaceAnnotation -> ErrorMeasure -> list N * list F32.t.
Variable float_to_string : F32.t -> string.
Variable self : FaceAlignment.
Variable dirpath : string.
Variable ann : FaceAnnotation.
Variable threshold : F32.t.
Variable radius thickness : Z.

Local Abbreviation hard := (is_hard getNormalizedErrors self ann threshold).
Local Abbreviation note :=
  (annotate getNormalizedErrors float_to_string self ann radius thickness).

(** The body of the loop, with its branch in the open. *)
Lemma save_face_unfold (fuel : nat) (face : FaceAnnotation) (image : Mat)
    (fs : gmap string Mat) :
  save_face getNormalizedErrors float_to_string fuel self dirpath ann
            threshold radius thickness face (image, fs)
  = if hard face
    then fs' ← write_hard_case fuel dirpath face (note image face) fs;
         mret (note image face, fs')
    else mret (note image face, fs).
Proof.
  unfold save_face, annotate, face_overlay, is_hard, face_mean_error,
    face_errors, paint, draw.
  destruct (getNormalizedErrors face ann (_measure self))
    as [indices errors]; simpl.
  by rewrite draw_parts_skeleton, <- app_assoc.
Qed.

(** A face that is not hard leaves the file system alone, whatever the
    fuel. *)
Lemma save_face_not_hard (fuel : nat) (face : FaceAnnotation) (image : Mat)
    (fs : gmap string Mat) :
  hard face = false ->
  save_face getNormalizedErrors float_to_string fuel self dirpath ann
            threshold radius thickness face (image, fs)
  = Ret (note image face, fs).
Proof. intros H. by rewrite save_face_unfold, H. Qed.

(** A hard face whose processing ends has had its annotated image written
    to the least free name. *)
Lemma save_face_hard_ret (fuel : nat) (face : FaceAnnotation) (image : Mat)
    (fs : gmap string Mat) (st' : Mat * gmap string Mat) :
  hard face = true ->
  save_face getNormalizedErrors float_to_string fuel self dirpath ann
            threshold radius thickness face (image, fs) = Ret st' ->
  exists n,
    least_free_number fs (candidate dirpath (basename (filename face))) n /\
    st' = (note image face,
           <[candidate dirpath (basename (filename face)) n
             := note image face]> fs).
Proof.
  intros Hhard. rewrite save_face_unfold, Hhard.
  destruct (write_hard_case fuel dirpath face (note image face) fs)
    as [fs'| |] eqn:Hw; try discriminate.
  intros [= <-].
  apply write_hard_case_ret in Hw as (n & Hn & ->). by exists n.
Qed.

(** With room in the directory the processing of a hard face ends. *)
Lemma save_face_hard_least (fuel : nat) (face : FaceAnnotation)
    (image : Mat) (fs : gmap string Mat) (n : N) :
  hard face = true ->
  least_free_number fs (candidate dirpath (basename (filename face))) n ->
  N.to_nat n < fuel ->
  save_face getNormalizedErrors float_to_string fuel self dirpath ann
            threshold radius thickness face (image, fs)
  = Ret (note image face,
         <[candidate dirpath (basename (filename face)) n
           := note image face]> fs).
Proof.
  intros Hhard Hn Hfuel. rewrite save_face_unfold, Hhard.
  by rewrite (write_hard_case_least dirpath face _ fs n fuel).
Qed.
End SaveFace.

(** Counterexample to C10 as the specification words it: the directory that
    holds all [2^32] names [out/<n>_face.png] is a finite set of paths, and
    on it the loop never ends, since the counter wraps from [2^32 - 1] back
    to 0; [save] of a hard face into that directory never returns. *)
Lemma C10_counterexample :
  diverges (fun fuel =>
    probe_filepath fuel (Sample_files.all_names "out/" "img/face.png")
                   "out/" "img/face.png" (find_last_of "img/face.png" "/") 0)
  /\
  diverges (fun fuel =>
    save Sample.getNormalizedErrors Sample.float_to_string
         Sample.decoded_rows Sample.round_to_int fuel Sample_faces.by_height
         "out/" [Sample_faces.far] Sample_faces.ground_truth
         (Sample_files.all_names "out/" "img/face.png")).
Proof.
  assert (forall fuel,
            probe_filepath fuel (Sample_files.all_names "out/" "img/face.png")
              "out/" "img/face.png" (find_last_of "img/face.png" "/") 0
            = NoFuel) as Hprobe.
  { intros fuel. apply probe_filepath_no_free_name; [|reflexivity].
    apply names_below_taken. }
  split; [exact Hprobe|].
  intros fuel. unfold save, save_run. cbn [save_faces].
  rewrite save_face_unfold.
  assert (is_hard Sample.getNormalizedErrors Sample_faces.by_height
            Sample_faces.ground_truth (save_threshold Sample_faces.by_height)
            Sample_faces.far = true) as -> by (vm_compute; reflexivity).
  unfold write_hard_case.
  change (filename Sample_faces.far) with "img/face.png".
  by rewrite Hprobe.
Qed.

(** ** The loop of [save] over the faces *)

Lemma res_bind_Ret {A B : Type} (a : A) (k : A -> res B) :
  (Ret a ≫= k) = k a.
Proof. reflexivity. Qed.

Lemma res_bind_inv {A B : Type} (r : res A) (k : A -> res B) (b : B) :
  (r ≫= k) = Ret b -> exists a, r = Ret a /\ k a = Ret b.
Proof. destruct r as [a| |]; try discriminate. intros H. by exists a. Qed.

Section SaveLoop.
Variable getNormalizedErrors :
  FaceAnnotation -> FaceAnnotation -> ErrorMeasure -> list N * list F32.t.
Variable float_to_string : F32.t -> string.
Variable self : FaceAlignment.
Variable dirpath : string.
Variable ann : FaceAnnotation.
Variable threshold : F32.t.
Variable radius thickness : Z.

Local Abbreviation step := (save_face getNormalizedErrors float_to_string).
Local Abbreviation loop := (save_faces getNormalizedErrors float_to_string).
Local Abbreviation hard := (is_hard getNormalizedErrors self ann threshold).
Local Abbreviation note :=
  (annotate getNormalizedErrors float_to_string self ann radius thickness).
Local Abbreviation note_all :=
  (annotate_all getNormalizedErrors float_to_string self ann radius
                thickness).

Lemma save_faces_cons (fuel : nat) (face : FaceAnnotation)
    (rest : list FaceAnnotation) (st : Mat * gmap string Mat) :
  loop fuel self dirpath ann threshold radius thickness (face :: rest) st
  = st' ← step fuel self dirpath ann threshold radius thickness face st;
    loop fuel self dirpath ann threshold radius thickness rest st'.
Proof. reflexivity. Qed.

(** What a finished loop leaves: every face drawn on the one image, the
    old files untouched, and one new file per hard face. *)
Lemma save_faces_ret (fuel : nat) (faces : list FaceAnnotation) :
  forall (image : Mat) (fs : gmap string Mat) (image' : Mat)
         (fs' : gmap string Mat),
    loop fuel self dirpath ann threshold radius thickness faces (image, fs)
    = Ret (image', fs') ->
    image' = note_all image faces /\
    fs ⊆ fs' /\
    size fs' = size fs + length (filter (fun face => hard face = true) faces).
Proof.
  induction faces as [|face rest IH]; intros image fs image' fs' H.
  - injection H as <- <-. by rewrite filter_nil, Nat.add_0_r.
  - rewrite save_faces_cons in H.
    apply res_bind_inv in H as ([image1 fs1] & Hstep & Hrest).
    apply IH in Hrest as (-> & Hsub & Hsize).
    rewrite filter_cons.
    destruct (is_hard getNormalizedErrors self ann threshold face) eqn:Hh.
    + apply save_face_hard_ret in Hstep as (n & Hn & [= -> ->]); [|done].
      destruct Hn as (_ & Hfree & _). apply not_elem_of_dom in Hfree.
      rewrite decide_True by done.
      rewrite map_size_insert_None in Hsize by done.
      split; [done|]. split; [|simpl; lia].
      etrans; [|exact Hsub]. by apply insert_subseteq.
    + rewrite save_face_not_hard in Hstep by done.
      injection Hstep as <- <-. rewrite decide_False by done.
      by repeat split.
Qed.

(** With room for one file per face, the loop ends. *)
Lemma save_faces_total (faces : list FaceAnnotation) :
  forall (image : Mat) (fs : gmap string Mat),
    (N.of_nat (size fs + length faces) < UINT_MOD)%N ->
    exists turns, forall fuel, turns <= fuel ->
      exists st',
        loop fuel self dirpath ann threshold radius thickness faces
             (image, fs) = Ret st'.
Proof.
  induction faces as [|face rest IH]; intros image fs Hroom.
  - exists 0. intros fuel _. by eexists.
  - simpl in Hroom.
    destruct (is_hard getNormalizedErrors self ann threshold face) eqn:Hh.
    + destruct (least_free_number_exists fs dirpath (filename face))
        as (n & Hn); [lia|].
      pose proof Hn as (_ & Hfree & _). apply not_elem_of_dom in Hfree.
      set (image1 := annotate getNormalizedErrors float_to_string self ann
                       radius thickness image face).
      set (fs1 := <[candidate dirpath (basename (filename face)) n
                    := image1]> fs).
      destruct (IH image1 fs1) as (turns & Hturns).
      { unfold fs1. rewrite map_size_insert_None by done. lia. }
      exists (S (N.to_nat n) + turns). intros fuel Hfuel.
      cbn [save_faces].
      rewrite (save_face_hard_least _ _ _ _ _ _ _ _ _ _ _ _ n Hh Hn)
        by lia.
      rewrite res_bind_Ret. apply Hturns. lia.
    + destruct (IH (annotate getNormalizedErrors float_to_string self ann
                      radius thickness image face) fs) as (turns & Hturns);
        [lia|].
      exists turns. intros fuel Hfuel. cbn [save_faces].
      rewrite save_face_not_hard by done.
      rewrite res_bind_Ret. by apply Hturns.
Qed.

(** A file that appears during the loop holds the image as it stood when
    some hard face had just been drawn: the overlays of that face and of
    every face before it. *)
Lemma save_faces_written (fuel : nat) (faces : list FaceAnnotation) :
  forall (image : Mat) (fs : gmap string Mat) (image' : Mat)
         (fs' : gmap string Mat) (filepath : string) (stored : Mat),
    loop fuel self dirpath ann threshold radius thickness faces (image, fs)
    = Ret (image', fs') ->
    fs !! filepath = None ->
    fs' !! filepath = Some stored ->
    exists k face,
      faces !! k = Some face /\ hard face = true /\
      stored = note_all image (take (S k) faces).
Proof.
  induction faces as [|face rest IH];
    intros image fs image' fs' filepath stored H Hold Hnew.
  - injection H as <- <-. congruence.
  - rewrite save_faces_cons in H.
    apply res_bind_inv in H as ([image1 fs1] & Hstep & Hrest).
    pose proof (save_faces_ret _ _ _ _ _ _ Hrest) as (_ & Hsub & _).
    destruct (is_hard getNormalizedErrors self ann threshold face) eqn:Hh.
    + apply save_face_hard_ret in Hstep as (n & Hn & [= -> ->]); [|done].
      destruct (decide (filepath
                        = candidate dirpath (basename (filename face)) n))
        as [->|Hne].
      * exists 0, face. split; [done|]. split; [done|].
        eapply lookup_weaken in Hsub; [|apply lookup_insert_eq].
        rewrite Hsub in Hnew. by injection Hnew as <-.
      * destruct (IH _ _ _ _ filepath stored Hrest)
          as (k & face' & Hk & Hhard & ->); [|done|].
        { by rewrite lookup_insert_ne. }
        by exists (S k), face'.
    + rewrite save_face_not_hard in Hstep by done.
      injection Hstep as <- <-.
      destruct (IH _ _ _ _ filepath stored Hrest Hold Hnew)
        as (k & face' & Hk & Hhard & ->).
      by exists (S k), face'.
Qed.
End SaveLoop.

(** ** The image [save] draws on *)

Section SaveImage.
Variable getNormalizedErrors :
  FaceAnnotation -> FaceAnnotation -> ErrorMeasure -> list N * list F32.t.
Variable float_to_string : F32.t -> string.
Variable decoded_rows : string -> Z.
Variable round_to_int : F32.t -> Z.
Variable self : FaceAlignment.
Variable ann : FaceAnnotation.

Local Abbreviation radius := (marker_radius round_to_int ann).
Local Abbreviation thickness := (line_thickness round_to_int ann).
Local Abbreviation note :=
  (annotate getNormalizedErrors float_to_string self ann radius thickness).
Local Abbreviation overlay :=
  (face_overlay getNormalizedErrors float_to_string self ann radius
                thickness).

Lemma save_prepare_spec :
  save_prepare decoded_rows round_to_int ann
  = {| mat_source := filename ann; mat_rows := decoded_rows (filename ann);
       mat_drawn := ground_truth_overlay round_to_int ann |}.
Proof.
  unfold save_prepare, paint, imread, ground_truth_overlay. simpl.
  by rewrite draw_parts_skeleton.
Qed.

Lemma annotate_all_spec (faces : list FaceAnnotation) (image : Mat) :
  annotate_all getNormalizedErrors float_to_string self ann radius thickness
               image faces
  = {| mat_source := mat_source image; mat_rows := mat_rows image;
       mat_drawn := mat_drawn image
                    ++ flat_map (overlay (mat_rows image)) faces |}.
Proof.
  unfold annotate_all. revert image.
  induction faces as [|face rest IH]; intros image; simpl.
  - rewrite app_nil_r. by destruct image.
  - rewrite IH. unfold annotate at 1 2 3. simpl. by rewrite <- app_assoc.
Qed.
End SaveImage.

(** C3 (as amended): [save] decodes the source image once, draws the ground
    truth on it once, and then draws every predicted face in turn on that
    same image.  So the image persisted for a hard face holds the
    ground-truth skeleton followed by the skeleton and the mean-error text of
    every predicted face up to and including that face (and of no later
    face); it is a fresh copy of the source only for the first face. *)
Theorem C3_persisted_image_accumulates_overlays
    (getNormalizedErrors :
       FaceAnnotation -> FaceAnnotation -> ErrorMeasure -> list N * list F32.t)
    (float_to_string : F32.t -> string) (decoded_rows : string -> Z)
    (round_to_int : F32.t -> Z)
    (fuel : nat) (self : FaceAlignment) (dirpath : string)
    (faces : list FaceAnnotation) (ann : FaceAnnotation)
    (fs fs' : gmap string Mat) (image' : Mat)
    (filepath : string) (stored : Mat) :
  save_run getNormalizedErrors float_to_string decoded_rows round_to_int
           fuel self dirpath faces ann fs = Ret (image', fs') ->
  fs !! filepath = None ->
  fs' !! filepath = Some stored ->
  exists k face,
    faces !! k = Some face /\
    F32.gt (mean_error (face_errors getNormalizedErrors self ann face))
           (save_threshold self) = true /\
    mat_source stored = filename ann /\
    mat_drawn stored
    = ground_truth_overlay round_to_int ann
      ++ flat_map (face_overlay getNormalizedErrors float_to_string self ann
                     (marker_radius round_to_int ann)
                     (line_thickness round_to_int ann)
                     (decoded_rows (filename ann)))
                  (take (S k) faces).
Proof.
  unfold save_run. intros Hrun Hold Hnew.
  destruct (save_faces_written _ _ _ _ _ _ _ _ _ _ _ _ _ _ _ _
              Hrun Hold Hnew) as (k & face & Hk & Hhard & ->).
  exists k, face. split; [done|]. split; [exact Hhard|].
  by rewrite annotate_all_spec, save_prepare_spec.
Qed.

Lemma C3_persisted_image_accumulates_overlays_witness :
  exists k face,
    [Sample_faces.far; Sample_faces.farther] !! k = Some face /\
    F32.gt (mean_error (face_errors Sample.getNormalizedErrors
                          Sample_faces.by_height Sample_faces.ground_truth
                          face))
           (save_threshold Sample_faces.by_height) = true /\
    mat_source
      (annotate_all Sample.getNormalizedErrors Sample.float_to_string
         Sample_faces.by_height Sample_faces.ground_truth 3 2
         (save_prepare Sample.decoded_rows Sample.round_to_int
            Sample_faces.ground_truth)
         [Sample_faces.far; Sample_faces.farther])
    = filename Sample_faces.ground_truth /\
    mat_drawn
      (annotate_all Sample.getNormalizedErrors Sample.float_to_string
         Sample_faces.by_height Sample_faces.ground_truth 3 2
         (save_prepare Sample.decoded_rows Sample.round_to_int
            Sample_faces.ground_truth)
         [Sample_faces.far; Sample_faces.farther])
    = ground_truth_overlay Sample.round_to_int Sample_faces.ground_truth
      ++ flat_map (face_overlay Sample.getNormalizedErrors
                     Sample.float_to_string Sample_faces.by_height
                     Sample_faces.ground_truth
                     (marker_radius Sample.round_to_int
                        Sample_faces.ground_truth)
                     (line_thickness Sample.round_to_int
                        Sample_faces.ground_truth)
                     (Sample.decoded_rows
                        (filename Sample_faces.ground_truth)))
                  (take (S k) [Sample_faces.far; Sample_faces.farther]).
Proof.
  eapply (C3_persisted_image_accumulates_overlays
            Sample.getNormalizedErrors Sample.float_to_string
            Sample.decoded_rows Sample.round_to_int 5 Sample_faces.by_height
            "out/" [Sample_faces.far; Sample_faces.farther]
            Sample_faces.ground_truth ∅ _ _ "out/1_face.png").
  - vm_compute. reflexivity.
  - reflexivity.
  - vm_compute. reflexivity.
Defined.

(** Counterexample to C3 as the specification words it: of two hard faces
    of one image, the file persisted for the second one ([out/1_face.png])
    carries the skeleton and the error text "5.000000" of the first one
    beside its own "6.000000". *)
Lemma C3_counterexample :
  exists (fs' : gmap string Mat) (stored : Mat),
    save Sample.getNormalizedErrors Sample.float_to_string
         Sample.decoded_rows Sample.round_to_int 5 Sample_faces.by_height
         "out/" [Sample_faces.far; Sample_faces.farther]
         Sample_faces.ground_truth ∅ = Ret fs' /\
    fs' !! "out/1_face.png" = Some stored /\
    (cv_putText "6.000000" 10 470 FONT_HERSHEY_SIMPLEX 1 red_color
       ∈ mat_drawn stored) /\
    (cv_putText "5.000000" 10 470 FONT_HERSHEY_SIMPLEX 1 red_color
       ∈ mat_drawn stored) /\
    (cv_line (Sample_faces.pt 500 0) (Sample_faces.pt 510 0) green_color 2
       ∈ mat_drawn stored).
Proof.
  eexists _, _. split; [vm_compute; reflexivity|].
  split; [vm_compute; reflexivity|].
  repeat split; apply list_elem_of_In; vm_compute; tauto.
Qed.

(** ** Exact cases of the floating-point arithmetic *)

Section Canonical.
Variables prec emax : Z.
Variable s : bool.
Variable m : positive.
Variable e : Z.
Hypothesis Hbounded : bounded prec emax m e = true.

(** A mantissa that is already canonical is returned as it is. *)
Lemma binary_round_aux_canonical :
  binary_round_aux prec emax s (Z.pos m) e loc_Exact = S754_finite s m e.
Proof.
  pose proof Hbounded as H. unfold bounded, canonical_mantissa in H.
  apply andb_prop in H as [Hc He].
  apply Z.eqb_eq in Hc.
  unfold binary_round_aux, shr_fexp. cbn [Zdigits2].
  rewrite Hc, Z.sub_diag.
  cbn [shr shr_record_of_loc shr_m loc_of_shr_record round_nearest_even].
  cbn [Zdigits2].
  rewrite Hc, Z.sub_diag. cbn [shr shr_m]. by rewrite He.
Qed.

Lemma binary_round_canonical :
  binary_round prec emax s m e = S754_finite s m e.
Proof.
  unfold binary_round.
  pose proof Hbounded as H. unfold bounded, canonical_mantissa in H.
  apply andb_prop in H as [Hc He]. apply Z.eqb_eq in Hc.
  rewrite Hc. unfold shl_align. rewrite Z.sub_diag.
  apply binary_round_aux_canonical.
Qed.
End Canonical.

Lemma digits2_pos_iter_xO (m k : positive) :
  digits2_pos (Pos.iter xO m k) = (digits2_pos m + k)%positive.
Proof.
  induction k as [|k IH] using Pos.peano_ind.
  - simpl. lia.
  - rewrite Pos.iter_succ. simpl. rewrite IH. lia.
Qed.

Lemma iter_pos_iter {A : Type} (f : A -> A) (n : positive) (x : A) :
  SpecFloat.iter_pos f n x = Pos.iter f x n.
Proof.
  revert x. induction n as [n IH|n IH|]; intros x; simpl.
  - rewrite !IH. by rewrite !Pos.iter_swap.
  - by rewrite !IH.
  - reflexivity.
Qed.

(** Shifting right what was shifted left gives the mantissa back, with
    nothing rounded away. *)
Lemma shr_iter_xO (m k : positive) :
  SpecFloat.iter_pos shr_1 k
    (Build_shr_record (Z.pos (Pos.iter xO m k)) false false)
  = Build_shr_record (Z.pos m) false false.
Proof.
  rewrite iter_pos_iter.
  induction k as [|k IH] using Pos.peano_ind.
  - reflexivity.
  - rewrite Pos.iter_succ_r. rewrite Pos.iter_succ. simpl. exact IH.
Qed.

Lemma bounded_32 (m : positive) (e : Z) :
  bounded F32.prec F32.emax m e = true ->
  (Z.max (Z.pos (digits2_pos m) + e - 24) (-149) = e /\ e <= 104)%Z.
Proof.
  unfold bounded, canonical_mantissa, fexp, emin, F32.prec, F32.emax.
  intros H. apply andb_prop in H as [Hc He].
  apply Z.eqb_eq in Hc. apply Z.leb_le in He. split; [|lia].
  rewrite <- Hc at 2. f_equal.
Qed.

(** Widening: the same value, with the mantissa shifted into 53 bits. *)
Lemma float_to_double_finite (s : bool) (m : positive) (e : Z) :
  bounded F32.prec F32.emax m e = true ->
  exists k : positive,
    float_to_double (S754_finite s m e)
    = S754_finite s (Pos.iter xO m k) (e - Z.pos k) /\
    (Z.pos (digits2_pos m) + Z.pos k <= 53)%Z /\
    (-1074 <= e - Z.pos k)%Z.
Proof.
  intros H. apply bounded_32 in H as [Hc He].
  unfold float_to_double, binary_round.
  set (d := Z.pos (digits2_pos m)) in *.
  assert (fexp F64.prec F64.emax (d + e) < e)%Z as Hlt.
  { unfold fexp, emin, F64.prec, F64.emax. lia. }
  unfold shl_align.
  destruct (fexp F64.prec F64.emax (d + e) - e)%Z as [|p|k] eqn:Hk; try lia.
  exists k.
  assert (fexp F64.prec F64.emax (d + e) = e - Z.pos k)%Z as He' by lia.
  rewrite He'.
  split; [|unfold fexp, emin, F64.prec, F64.emax in He'; lia].
  apply binary_round_aux_canonical.
  unfold bounded, canonical_mantissa.
  rewrite digits2_pos_iter_xO.
  replace (Z.pos (digits2_pos m + k) + (e - Z.pos k))%Z with (d + e)%Z
    by (unfold d; lia).
  rewrite He', Z.eqb_refl. simpl.
  apply Z.leb_le. unfold F64.emax, F64.prec. lia.
Qed.

(** Narrowing a widened [float] gives the [float] back. *)
Lemma double_to_float_to_double (x : F32.t) :
  F32.valid x = true -> double_to_float (float_to_double x) = x.
Proof.
  destruct x as [s|s| |s m e]; try reflexivity.
  unfold F32.valid, valid_binary. intros H.
  destruct (float_to_double_finite s m e H) as (k & -> & _ & _).
  pose proof (bounded_32 m e H) as [Hc He].
  unfold double_to_float, binary_round.
  rewrite digits2_pos_iter_xO.
  set (d := Z.pos (digits2_pos m)) in *.
  replace (Z.pos (digits2_pos m + k) + (e - Z.pos k))%Z with (d + e)%Z
    by (unfold d; lia).
  assert (fexp F32.prec F32.emax (d + e) = e) as Hf.
  { unfold fexp, emin, F32.prec, F32.emax. lia. }
  rewrite Hf. unfold shl_align.
  replace (e - (e - Z.pos k))%Z with (Z.pos k) by lia.
  unfold binary_round_aux, shr_fexp. cbn [Zdigits2].
  rewrite digits2_pos_iter_xO.
  replace (Z.pos (digits2_pos m + k) + (e - Z.pos k))%Z with (d + e)%Z
    by (unfold d; lia).
  rewrite Hf.
  replace (e - (e - Z.pos k))%Z with (Z.pos k) by lia.
  cbn [shr shr_record_of_loc]. rewrite shr_iter_xO.
  cbn [shr_m loc_of_shr_record round_nearest_even Zdigits2].
  fold d. replace (e - Z.pos k + Z.pos k)%Z with e by lia.
  rewrite Hf, Z.sub_diag. cbn [shr shr_m].
  assert ((e <=? F32.emax - F32.prec)%Z = true) as ->.
  { apply Z.leb_le. unfold F32.emax, F32.prec. lia. }
  reflexivity.
Qed.

Lemma div_eucl_exact (q : Z) (b : positive) :
  Z.div_eucl (q * Z.pos b) (Z.pos b) = (q, 0%Z).
Proof.
  pose proof (Z.div_mul q (Z.pos b) ltac:(lia)) as Hq.
  pose proof (Z.mod_mul q (Z.pos b) ltac:(lia)) as Hr.
  unfold Z.div, Z.modulo in Hq, Hr.
  destruct (Z.div_eucl (q * Z.pos b) (Z.pos b)) as [q' r'].
  by rewrite Hq, Hr.
Qed.

(** Dividing by 1.0 changes nothing. *)
Lemma F32_div_one (x : F32.t) :
  F32.valid x = true -> F32.div x f1_0 = x.
Proof.
  destruct x as [s|s| |s m e]; try reflexivity.
  - by destruct s.
  - by destruct s.
  - unfold F32.valid, valid_binary. intros H.
    pose proof (bounded_32 m e H) as [Hc He].
    unfold F32.div, f1_0, SFdiv, SFdiv_core_binary.
    cbn [Zdigits2 digits2_pos]. rewrite xorb_false_r.
    set (d := Z.pos (digits2_pos m)) in *.
    change (Z.pos (Pos.succ _)) with 24%Z.
    destruct (decide (e = -149)%Z) as [->|Hne].
    + assert (Z.min (fexp F32.prec F32.emax (d + -149 - (24 + -23)))
                    (-149 - -23) = -149)%Z as ->.
      { unfold fexp, emin, F32.prec, F32.emax. lia. }
      change (-149 - -23 - -149)%Z with 23%Z.
      rewrite Z.shiftl_mul_pow2 by lia.
      change (2 ^ 23)%Z with (Z.pos 8388608).
      rewrite div_eucl_exact.
      change (new_location 8388608 0) with loc_Exact.
      by apply binary_round_aux_canonical.
    + assert (d = 24%Z) as Hd by lia.
      assert (Z.min (fexp F32.prec F32.emax (d + e - (24 + -23)))
                    (e - -23) = e - 1)%Z as ->.
      { unfold fexp, emin, F32.prec, F32.emax. lia. }
      replace (e - -23 - (e - 1))%Z with 24%Z by lia.
      rewrite Z.shiftl_mul_pow2 by lia.
      replace (Z.pos m * 2 ^ 24)%Z with (Z.pos m~0 * Z.pos 8388608)%Z by lia.
      rewrite div_eucl_exact.
      change (new_location 8388608 0) with loc_Exact.
      unfold binary_round_aux, shr_fexp. cbn [Zdigits2 digits2_pos].
      rewrite Pos2Z.inj_succ. fold d. rewrite Hd.
      assert (fexp F32.prec F32.emax (Z.succ 24 + (e - 1)) - (e - 1) = 1)%Z
        as ->.
      { unfold fexp, emin, F32.prec, F32.emax. lia. }
      cbn [shr shr_record_of_loc SpecFloat.iter_pos shr_1 shr_m
           loc_of_shr_record round_nearest_even orb Zdigits2].
      fold d. rewrite Hd.
      replace (e - 1 + 1)%Z with e by lia.
      assert (fexp F32.prec F32.emax (24 + e) - e = 0)%Z as ->.
      { unfold fexp, emin, F32.prec, F32.emax. lia. }
      cbn [shr shr_m].
      assert ((e <=? F32.emax - F32.prec)%Z = true) as ->.
      { apply Z.leb_le. unfold F32.emax, F32.prec. lia. }
      reflexivity.
Qed.

Lemma size_to_float_one : size_to_float 1 = f1_0.
Proof. reflexivity. Qed.

(** The mean of a single error is that error (a negative zero comes out as
    the positive zero it is added to). *)
Lemma mean_error_singleton (e : F32.t) :
  F32.valid e = true ->
  mean_error [e] = match e with S754_zero _ => S754_zero false | _ => e end.
Proof.
  intros Hv. unfold mean_error, accumulate.
  cbn [foldl length]. change (N.of_nat 1) with 1%N.
  rewrite size_to_float_one.
  destruct e as [s|s| |s m e].
  - by destruct s.
  - by destruct s.
  - reflexivity.
  - assert (F64.add F64.zero (float_to_double (S754_finite s m e))
            = float_to_double (S754_finite s m e)) as ->.
    { destruct (float_to_double_finite s m e Hv) as (k & -> & _). reflexivity. }
    rewrite double_to_float_to_double by exact Hv.
    by apply F32_div_one.
Qed.

Lemma digits2_pos_size (p : positive) : digits2_pos p = Pos.size p.
Proof. induction p as [p IH|p IH|]; simpl; by rewrite ?IH. Qed.

Lemma digits2_pos_bound (p : positive) (b : Z) :
  (0 <= b)%Z -> (Z.pos p < 2 ^ b)%Z -> (Z.pos (digits2_pos p) <= b)%Z.
Proof.
  intros Hb Hp. rewrite digits2_pos_size.
  pose proof (Pos.size_le p) as Hle.
  apply Pos2Z.pos_le_pos in Hle. rewrite Pos2Z.inj_pow in Hle.
  destruct (Z.le_gt_cases (Z.pos (Pos.size p)) b) as [|Hgt]; [done|].
  exfalso.
  assert (2 ^ (b + 1) <= 2 ^ Z.pos (Pos.size p))%Z as Hmono.
  { apply Z.pow_le_mono_r; lia. }
  rewrite Z.pow_add_r, Z.pow_1_r in Hmono by lia. lia.
Qed.

Lemma pos_iter_xO_value (p k : positive) :
  Z.pos (Pos.iter xO p k) = (Z.pos p * 2 ^ Z.pos k)%Z.
Proof.
  induction k as [|k IH] using Pos.peano_ind.
  - simpl. lia.
  - rewrite Pos.iter_succ, Pos2Z.inj_xO, IH, Pos2Z.inj_succ.
    rewrite Z.pow_succ_r by lia. lia.
Qed.

(** A count below [2^24] converts to the [float] of exactly that value. *)
Lemma size_to_float_exact (n : N) :
  (0 < n < 2 ^ 24)%N ->
  exists (m : positive) (e : Z),
    size_to_float n = S754_finite false m e /\
    (e <= 0)%Z /\ Z.pos m = (Z.of_N n * 2 ^ (- e))%Z.
Proof.
  intros [Hpos Hlt]. destruct n as [|p]; [lia|].
  unfold size_to_float, F32.of_Z, binary_normalize, binary_round.
  cbn [Z.of_N].
  assert (Z.pos (digits2_pos p) <= 24)%Z as Hd.
  { apply digits2_pos_bound; [lia|]. 
    change (2 ^ 24)%Z with (Z.of_N (2 ^ 24)). lia. }
  set (d := Z.pos (digits2_pos p)) in *.
  assert (fexp F32.prec F32.emax (d + 0) = d - 24)%Z as ->.
  { unfold fexp, emin, F32.prec, F32.emax. lia. }
  unfold shl_align.
  destruct (d - 24 - 0)%Z as [|k|k] eqn:Hk; try lia.
  - exists p, 0%Z. split; [|split; [lia|simpl; lia]].
    apply binary_round_aux_canonical.
    unfold bounded, canonical_mantissa, fexp, emin, F32.prec, F32.emax.
    fold d. apply andb_true_intro. split; [apply Z.eqb_eq|apply Z.leb_le]; lia.
  - exists (Pos.iter xO p k), (d - 24)%Z.
    split; [|split; [lia|]].
    + apply binary_round_aux_canonical.
      unfold bounded, canonical_mantissa, fexp, emin, F32.prec, F32.emax.
      rewrite digits2_pos_iter_xO. rewrite Pos2Z.inj_add. fold d.
      apply andb_true_intro.
      split; [apply Z.eqb_eq|apply Z.leb_le]; lia.
    + rewrite pos_iter_xO_value. f_equal. f_equal. lia.
Qed.

(** ** Aggregation and classification of one face *)

Lemma mean_error_nil : mean_error [] = S754_nan.
Proof. reflexivity. Qed.

(** C9: a predicted face whose errors sequence is empty is processed to the
    end whatever the fuel, threshold and state: its mean error does not
    compare above the threshold, the branch that writes a file is not taken,
    the face is only drawn on the image, and the file system is left as it
    was. *)
Theorem C9_empty_errors_face_is_not_persisted
    (getNormalizedErrors :
       FaceAnnotation -> FaceAnnotation -> ErrorMeasure -> list N * list F32.t)
    (float_to_string : F32.t -> string)
    (self : FaceAlignment) (dirpath : string) (ann : FaceAnnotation)
    (threshold : F32.t) (radius thickness : Z) (face : FaceAnnotation) :
  face_errors getNormalizedErrors self ann face = [] ->
  F32.gt (mean_error (face_errors getNormalizedErrors self ann face))
         threshold = false /\
  forall (fuel : nat) (image : Mat) (fs : gmap string Mat),
    save_face getNormalizedErrors float_to_string fuel self dirpath ann
              threshold radius thickness face (image, fs)
    = Ret (annotate getNormalizedErrors float_to_string self ann radius
                    thickness image face, fs).
Proof.
  intros Hempty.
  assert (F32.gt (mean_error (face_errors getNormalizedErrors self ann face))
                 threshold = false) as Hnot.
  { rewrite Hempty, mean_error_nil. apply F32_gt_nan_l. }
  split; [exact Hnot|].
  intros fuel image fs. by apply save_face_not_hard.
Qed.

Lemma C9_empty_errors_face_is_not_persisted_witness :
  F32.gt (mean_error (face_errors Sample.getNormalizedErrors
                        Sample_faces.by_height Sample_faces.ground_truth
                        Sample_faces.unmatched))
         (save_threshold Sample_faces.by_height) = false /\
  forall (fuel : nat) (image : Mat) (fs : gmap string Mat),
    save_face Sample.getNormalizedErrors Sample.float_to_string fuel
              Sample_faces.by_height "out/" Sample_faces.ground_truth
              (save_threshold Sample_faces.by_height) 3 2
              Sample_faces.unmatched (image, fs)
    = Ret (annotate Sample.getNormalizedErrors Sample.float_to_string
                    Sample_faces.by_height Sample_faces.ground_truth 3 2
                    image Sample_faces.unmatched, fs).
Proof.
  refine (C9_empty_errors_face_is_not_persisted
            Sample.getNormalizedErrors Sample.float_to_string
            Sample_faces.by_height "out/" Sample_faces.ground_truth
            (save_threshold Sample_faces.by_height) 3 2
            Sample_faces.unmatched _).
  reflexivity.
Defined.

(** C5 (as amended): for a predicted face whose errors sequence is empty the
    aggregation divides 0.0 by 0.0: the mean error is a NaN, produced without
    any signal.  The face is processed like any other (the outcome is a
    normal return, there is no unscoreable result): the NaN is printed as the
    text overlaid on the image, and it is compared with the threshold. *)
Theorem C5_empty_errors_mean_is_silent_nan
    (getNormalizedErrors :
       FaceAnnotation -> FaceAnnotation -> ErrorMeasure -> list N * list F32.t)
    (float_to_string : F32.t -> string)
    (self : FaceAlignment) (dirpath : string) (ann : FaceAnnotation)
    (threshold : F32.t) (radius thickness : Z) (face : FaceAnnotation) :
  face_errors getNormalizedErrors self ann face = [] ->
  face_mean_error getNormalizedErrors self ann face = S754_nan /\
  forall (fuel : nat) (image : Mat) (fs : gmap string Mat),
    exists image',
      save_face getNormalizedErrors float_to_string fuel self dirpath ann
                threshold radius thickness face (image, fs)
      = Ret (image', fs) /\
      last (mat_drawn image')
      = Some (cv_putText (float_to_string S754_nan) 10 (mat_rows image - 10)
                FONT_HERSHEY_SIMPLEX 1 red_color).
Proof.
  intros Hempty.
  assert (face_mean_error getNormalizedErrors self ann face = S754_nan)
    as Hnan.
  { unfold face_mean_error. by rewrite Hempty. }
  split; [exact Hnan|].
  intros fuel image fs. eexists. split.
  - apply save_face_not_hard. unfold is_hard.
    rewrite Hnan. apply F32_gt_nan_l.
  - unfold annotate, face_overlay. simpl.
    by rewrite Hnan, app_assoc, last_snoc.
Qed.

Lemma C5_empty_errors_mean_is_silent_nan_witness :
  face_mean_error Sample.getNormalizedErrors Sample_faces.by_height
                  Sample_faces.ground_truth Sample_faces.unmatched
  = S754_nan /\
  forall (fuel : nat) (image : Mat) (fs : gmap string Mat),
    exists image',
      save_face Sample.getNormalizedErrors Sample.float_to_string fuel
                Sample_faces.by_height "out/" Sample_faces.ground_truth
                (save_threshold Sample_faces.by_height) 3 2
                Sample_faces.unmatched (image, fs)
      = Ret (image', fs) /\
      last (mat_drawn image')
      = Some (cv_putText "nan" 10 (mat_rows image - 10)
                FONT_HERSHEY_SIMPLEX 1 red_color).
Proof.
  refine (C5_empty_errors_mean_is_silent_nan
            Sample.getNormalizedErrors Sample.float_to_string
            Sample_faces.by_height "out/" Sample_faces.ground_truth
            (save_threshold Sample_faces.by_height) 3 2
            Sample_faces.unmatched _).
  reflexivity.
Defined.

(** Counterexample to C5 as the specification words it: the detection
    [unmatched] shares no landmark id with the ground truth, its errors
    sequence is empty, and [save] returns normally after drawing the text
    "nan" for its mean error. *)
Lemma C5_counterexample :
  face_errors Sample.getNormalizedErrors Sample_faces.by_height
              Sample_faces.ground_truth Sample_faces.unmatched = [] /\
  F32.is_nan (face_mean_error Sample.getNormalizedErrors
                Sample_faces.by_height Sample_faces.ground_truth
                Sample_faces.unmatched) = true /\
  exists image',
    save_run Sample.getNormalizedErrors Sample.float_to_string
             Sample.decoded_rows Sample.round_to_int 0
             Sample_faces.by_height "out/" [Sample_faces.unmatched]
             Sample_faces.ground_truth ∅
    = Ret (image', ∅) /\
    last (mat_drawn image')
    = Some (cv_putText "nan" 10 470 FONT_HERSHEY_SIMPLEX 1 red_color).
Proof.
  split; [reflexivity|]. split; [reflexivity|].
  eexists. split; [vm_compute; reflexivity|reflexivity].
Qed.

(** ** Dyadic rationals *)

Lemma pow2_pos (e : Z) : (0 < 2 ^ e)%Q.
Proof. apply Qpower_0_lt. reflexivity. Qed.

Lemma pow2_neq_0 (e : Z) : ~ (2 ^ e == 0)%Q.
Proof. apply Qpower_not_0. discriminate. Qed.

Lemma pow2_plus (a b : Z) : (2 ^ (a + b) == 2 ^ a * 2 ^ b)%Q.
Proof. apply Qpower_plus. discriminate. Qed.

Lemma dyadic_shift (k e j : Z) :
  (0 <= j)%Z -> (dyadic (k * 2 ^ j) (e - j) == dyadic k e)%Q.
Proof.
  intros Hj. unfold dyadic.
  rewrite inject_Z_mult, Zpower_Qpower by exact Hj.
  change (inject_Z 2) with 2%Q.
  rewrite <- Qmult_assoc, <- pow2_plus.
  by replace (j + (e - j))%Z with e by lia.
Qed.

Lemma dyadic_plus (a b e : Z) :
  (dyadic (a + b) e == dyadic a e + dyadic b e)%Q.
Proof. unfold dyadic. rewrite inject_Z_plus. ring. Qed.

Lemma dyadic_mult (a b e f : Z) :
  (dyadic (a * b) (e + f) == dyadic a e * dyadic b f)%Q.
Proof. unfold dyadic. rewrite inject_Z_mult, pow2_plus. ring. Qed.

Lemma dyadic_0 (e : Z) : (dyadic 0 e == 0)%Q.
Proof. unfold dyadic. ring. Qed.

Lemma dyadic_inj (a b e : Z) : (dyadic a e == dyadic b e)%Q -> a = b.
Proof.
  unfold dyadic. intros H.
  apply Qmult_inj_r in H; [|apply pow2_neq_0].
  by apply inject_Z_injective.
Qed.

Lemma dyadic_lt (a b e : Z) : (dyadic a e < dyadic b e)%Q -> (a < b)%Z.
Proof.
  unfold dyadic. intros H.
  apply Qmult_lt_r in H; [|apply pow2_pos].
  by rewrite Zlt_Qlt.
Qed.

(** Two dyadic rationals are equal when their numerators agree on the finer
    of the two grids. *)
Lemma dyadic_eq (a b e f : Z) :
  (dyadic a e == dyadic b f)%Q ->
  (a * 2 ^ (e - Z.min e f) = b * 2 ^ (f - Z.min e f))%Z.
Proof.
  intros H. apply (dyadic_inj _ _ (Z.min e f)).
  rewrite <- (dyadic_shift a e (e - Z.min e f)) in H by lia.
  rewrite <- (dyadic_shift b f (f - Z.min e f)) in H by lia.
  by replace (e - (e - Z.min e f))%Z with (Z.min e f) in H by lia;
     replace (f - (f - Z.min e f))%Z with (Z.min e f) in H by lia.
Qed.

(** ** Rounding a number that needs no rounding *)

Lemma pos_iter_xO_of_value (P m j : positive) :
  Z.pos P = (Z.pos m * 2 ^ Z.pos j)%Z -> P = Pos.iter xO m j.
Proof.
  intros H. rewrite <- pos_iter_xO_value in H. by injection H.
Qed.

Section Exact.
Variables prec emax : Z.
Variable sg : bool.
Variables P m : positive.
Variables E e : Z.
Hypothesis Hbounded : bounded prec emax m e = true.
Hypothesis Hvalue : (dyadic (Z.pos P) E == dyadic (Z.pos m) e)%Q.

Lemma exact_digits :
  (Z.pos (digits2_pos P) + E = Z.pos (digits2_pos m) + e)%Z.
Proof.
  pose proof (dyadic_eq _ _ _ _ Hvalue) as H.
  destruct (Z.lt_trichotomy E e) as [Hlt|[->|Hgt]].
  - rewrite Z.min_l, Z.sub_diag, Z.mul_1_r in H by lia.
    destruct (e - E)%Z as [|j|j] eqn:Hj; try lia.
    apply pos_iter_xO_of_value in H. rewrite H, digits2_pos_iter_xO. lia.
  - rewrite Z.min_id, Z.sub_diag, !Z.mul_1_r in H. by injection H as ->.
  - rewrite Z.min_r, Z.sub_diag, Z.mul_1_r in H by lia.
    destruct (E - e)%Z as [|j|j] eqn:Hj; try lia.
    symmetry in H. apply pos_iter_xO_of_value in H.
    rewrite H, digits2_pos_iter_xO. lia.
Qed.

Lemma exact_fexp :
  fexp prec emax (Z.pos (digits2_pos P) + E) = e.
Proof.
  rewrite exact_digits.
  pose proof Hbounded as H. unfold bounded, canonical_mantissa in H.
  apply andb_prop in H as [Hc _]. by apply Z.eqb_eq in Hc.
Qed.

(** A mantissa with as many low zero bits as have to be shifted out is
    rounded to the number it stands for. *)
Lemma binary_round_aux_exact :
  (E <= e)%Z ->
  binary_round_aux prec emax sg (Z.pos P) E loc_Exact = S754_finite sg m e.
Proof.
  intros Hle.
  pose proof (dyadic_eq _ _ _ _ Hvalue) as H.
  rewrite Z.min_l, Z.sub_diag, Z.mul_1_r in H by lia.
  pose proof Hbounded as Hb. unfold bounded, canonical_mantissa in Hb.
  apply andb_prop in Hb as [Hc He]. apply Z.eqb_eq in Hc.
  destruct (e - E)%Z as [|j|j] eqn:Hj; try lia.
  - rewrite Z.mul_1_r in H. injection H as ->.
    assert (E = e) as -> by lia.
    by apply binary_round_aux_canonical.
  - apply pos_iter_xO_of_value in H.
    unfold binary_round_aux, shr_fexp. cbn [Zdigits2].
    rewrite exact_fexp, Hj.
    cbn [shr shr_record_of_loc]. rewrite H, shr_iter_xO.
    cbn [shr_m loc_of_shr_record round_nearest_even Zdigits2].
    replace (E + Z.pos j)%Z with e by lia.
    rewrite Hc, Z.sub_diag. cbn [shr shr_m]. by rewrite He.
Qed.

Lemma binary_round_exact :
  binary_round prec emax sg P E = S754_finite sg m e.
Proof.
  unfold binary_round. rewrite exact_fexp.
  unfold shl_align.
  destruct (e - E)%Z as [|j|j] eqn:Hj.
  - apply binary_round_aux_exact. lia.
  - apply binary_round_aux_exact. lia.
  - pose proof (dyadic_eq _ _ _ _ Hvalue) as H.
    rewrite Z.min_r, Z.sub_diag, Z.mul_1_r in H by lia.
    replace (E - e)%Z with (Z.pos j) in H by lia.
    symmetry in H. apply pos_iter_xO_of_value in H. rewrite <- H.
    by apply binary_round_aux_canonical.
Qed.
End Exact.

(** ** The binary64 sum of numbers on a grid *)

Lemma digits2_pos_log2 (p : positive) :
  Z.pos (digits2_pos p) = (Z.log2 (Z.pos p) + 1)%Z.
Proof.
  rewrite digits2_pos_size.
  destruct p as [p|p|]; simpl; rewrite ?Pos2Z.inj_succ; lia.
Qed.

(** A positive multiple of [2^s] below [2^(53+s)] is a binary64 number. *)
Lemma F64_canonical (K : positive) (s : Z) :
  (Z.pos K < 2 ^ 53)%Z -> (-1074 <= s <= 971)%Z ->
  exists (m : positive) (e : Z),
    bounded F64.prec F64.emax m e = true /\
    (dyadic (Z.pos m) e == dyadic (Z.pos K) s)%Q.
Proof.
  intros HK Hs.
  assert (Z.pos (digits2_pos K) <= 53)%Z as Hd
    by (apply digits2_pos_bound; [lia|exact HK]).
  set (d := Z.pos (digits2_pos K)) in *.
  set (e := fexp F64.prec F64.emax (d + s)).
  assert (e <= s /\ e <= 971 /\ e = Z.max (d + s - 53) (-1074))%Z
    as (Hes & Hemax & He).
  { unfold e, fexp, emin, F64.prec, F64.emax. lia. }
  destruct (s - e)%Z as [|j|j] eqn:Hj; try lia.
  - exists K, s. split; [|reflexivity].
    unfold bounded, canonical_mantissa. fold d.
    apply andb_true_intro. split; [apply Z.eqb_eq|apply Z.leb_le].
    + fold e. lia.
    + unfold F64.prec, F64.emax. lia.
  - exists (Pos.iter xO K j), e. split.
    + unfold bounded, canonical_mantissa.
      rewrite digits2_pos_iter_xO, Pos2Z.inj_add. fold d.
      replace (d + Z.pos j + e)%Z with (d + s)%Z by lia. fold e.
      apply andb_true_intro. split; [apply Z.eqb_eq|apply Z.leb_le].
      * reflexivity.
      * unfold F64.prec, F64.emax. lia.
    + rewrite pos_iter_xO_value.
      replace e with (s - Z.pos j)%Z by lia.
      apply dyadic_shift. lia.
Qed.

Lemma shl_align_value (m : positive) (e ez : Z) :
  (ez <= e)%Z ->
  Z.pos (fst (shl_align m e ez)) = (Z.pos m * 2 ^ (e - ez))%Z.
Proof.
  intros Hle. unfold shl_align.
  destruct (ez - e)%Z as [|j|j] eqn:Hj; try lia.
  - replace (e - ez)%Z with 0%Z by lia. simpl. lia.
  - cbn [fst].
    change (PosDef.Pos.iter xO m j) with (Pos.iter xO m j).
    rewrite pos_iter_xO_value. f_equal. f_equal. lia.
Qed.

(** The valid binary32 data that stand for a non-negative number. *)
Lemma on_grid_inv (s : Z) (x : F32.t) :
  on_grid s x ->
  exists k : N,
    (F2Q x == dyadic (Z.of_N k) s)%Q /\
    ((k = 0%N /\ exists sx, x = S754_zero sx) \/
     ((0 < k)%N /\ exists m e,
         x = S754_finite false m e /\
         bounded F32.prec F32.emax m e = true)).
Proof.
  intros (Hvalid & k & Hfin & Hval). exists k. split; [exact Hval|].
  destruct x as [sx|sx| |sx m e]; try discriminate Hfin.
  - left. split; [|by exists sx].
    cbn [F2Q] in Hval. rewrite <- (dyadic_0 s) in Hval.
    apply dyadic_inj in Hval. lia.
  - right. cbn [F2Q] in Hval. apply dyadic_eq in Hval.
    assert (0 < 2 ^ (e - Z.min e s))%Z as H1 by (apply Z.pow_pos_nonneg; lia).
    assert (0 < 2 ^ (s - Z.min e s))%Z as H2 by (apply Z.pow_pos_nonneg; lia).
    destruct sx; cbn [cond_Zopp] in Hval.
    + exfalso.
      assert (Z.neg m * 2 ^ (e - Z.min e s) < 0)%Z by nia.
      assert (0 <= Z.of_N k * 2 ^ (s - Z.min e s))%Z by nia.
      lia.
    + split; [|by exists m, e].
      destruct k; [|lia]. simpl in Hval. nia.
Qed.

(** Widening keeps the number. *)
Lemma float_to_double_value (m : positive) (e : Z) :
  bounded F32.prec F32.emax m e = true ->
  exists (M : positive) (E : Z),
    float_to_double (S754_finite false m e) = S754_finite false M E /\
    (dyadic (Z.pos M) E == dyadic (Z.pos m) e)%Q.
Proof.
  intros Hb.
  destruct (float_to_double_finite false m e Hb) as (k & -> & _ & _).
  eexists _, _. split; [reflexivity|].
  rewrite pos_iter_xO_value. apply dyadic_shift. lia.
Qed.

Lemma F64_add_on_grid (s : Z) (K k : N) (acc : F64.t) (x : F32.t) :
  (-149 <= s <= 104)%Z ->
  holds_sum s K acc ->
  on_grid s x ->
  (F2Q x == dyadic (Z.of_N k) s)%Q ->
  (Z.of_N (K + k) < 2 ^ 53)%Z ->
  holds_sum s (K + k) (F64.add acc (float_to_double x)).
Proof.
  intros Hs Hacc Hx Hk Hsmall.
  apply on_grid_inv in Hx as (k' & Hk' & Hcases).
  assert (k' = k) as ->.
  { rewrite Hk' in Hk. apply dyadic_inj in Hk. lia. }
  destruct Hcases as [(-> & sx & ->)|(Hpos & m & e & -> & Hb)].
  - rewrite N.add_0_r. cbn [float_to_double].
    destruct K as [|K']; cbn [holds_sum] in Hacc |- *.
    + subst acc. by destruct sx.
    + destruct Hacc as (M & E & -> & HM). by exists M, E.
  - destruct (float_to_double_value m e Hb) as (M' & E' & -> & HM').
    cbn [F2Q cond_Zopp] in Hk'.
    destruct k as [|k']; [lia|]. cbn [Z.of_N] in Hk'.
    destruct K as [|K']; cbn [holds_sum] in Hacc.
    + subst acc. cbn [N.add holds_sum]. exists M', E'.
      split; [reflexivity|]. by rewrite HM'.
    + destruct Hacc as (M & E & -> & HM).
      change (N.pos K' + N.pos k')%N with (N.pos (K' + k')).
      cbn [holds_sum].
      destruct (F64_canonical (K' + k') s) as (Mc & Ec & Hbc & Hc);
        [exact Hsmall|lia|].
      exists Mc, Ec. split; [|exact Hc].
      unfold F64.add, SFadd. cbn [cond_Zopp].
      rewrite !shl_align_value by lia.
      set (ez := Z.min E E').
      assert (0 < Z.pos M * 2 ^ (E - ez) + Z.pos M' * 2 ^ (E' - ez))%Z
        as Hsum.
      { assert (0 < 2 ^ (E - ez))%Z by (apply Z.pow_pos_nonneg; lia).
        assert (0 < 2 ^ (E' - ez))%Z by (apply Z.pow_pos_nonneg; lia).
        nia. }
      destruct (Z.pos M * 2 ^ (E - ez) + Z.pos M' * 2 ^ (E' - ez))%Z
        as [|P|P] eqn:HP; try lia.
      cbn [binary_normalize].
      apply binary_round_exact; [exact Hbc|].
      assert (forall (A : positive) (B : Z), (ez <= B)%Z ->
                (dyadic (Z.pos A * 2 ^ (B - ez)) ez == dyadic (Z.pos A) B)%Q)
        as Hshift.
      { intros A B HB.
        rewrite <- (dyadic_shift (Z.pos A) B (B - ez)) by lia.
        by replace (B - (B - ez))%Z with ez by lia. }
      rewrite Hc, <- HP, dyadic_plus, !Hshift by lia.
      by rewrite Pos2Z.inj_add, dyadic_plus, HM, HM', Hk'.
Qed.

(** The errors with the multiples of [2^s] they stand for. *)
Lemma on_grid_numbers (s : Z) (errors : list F32.t) :
  Forall (on_grid s) errors ->
  exists ks : list N,
    Forall2 (fun x k => (F2Q x == dyadic (Z.of_N k) s)%Q) errors ks.
Proof.
  induction 1 as [|x errors Hx _ (ks & IH)].
  - by exists [].
  - destruct Hx as (_ & k & _ & Hk). exists (k :: ks). by constructor.
Qed.

Lemma exact_sum_on_grid (s : Z) (errors : list F32.t) (ks : list N) :
  Forall2 (fun x k => (F2Q x == dyadic (Z.of_N k) s)%Q) errors ks ->
  (exact_sum errors == dyadic (Z.of_N (foldr N.add 0%N ks)) s)%Q.
Proof.
  induction 1 as [|x k errors ks Hk _ IH]; simpl.
  - by rewrite dyadic_0.
  - rewrite N2Z.inj_add, dyadic_plus, <- IH, <- Hk. reflexivity.
Qed.

Lemma accumulate_on_grid (s : Z) (errors : list F32.t) (ks : list N) :
  (-149 <= s <= 104)%Z ->
  Forall (on_grid s) errors ->
  Forall2 (fun x k => (F2Q x == dyadic (Z.of_N k) s)%Q) errors ks ->
  forall (K : N) (acc : F64.t),
    holds_sum s K acc ->
    (Z.of_N (K + foldr N.add 0%N ks) < 2 ^ 53)%Z ->
    holds_sum s (K + foldr N.add 0%N ks)
      (foldl (fun acc e => F64.add acc (float_to_double e)) acc errors).
Proof.
  intros Hs Hgrid Hks. induction Hks as [|x k errors ks Hk _ IH];
    intros K acc Hacc Hsmall; simpl in *.
  - by rewrite N.add_0_r.
  - apply Forall_cons in Hgrid as (Hx & Hgrid).
    rewrite N.add_assoc in Hsmall |- *.
    apply IH; [exact Hgrid| |exact Hsmall].
    apply F64_add_on_grid; [exact Hs|exact Hacc|exact Hx|exact Hk|lia].
Qed.

(** ** Narrowing the sum and dividing it by the count *)

(** A valid binary32 datum that stands for a positive number. *)
Lemma positive_number_inv (r : F32.t) (q : Q) :
  F32.valid r = true -> is_number r q -> (0 < q)%Q ->
  exists (m : positive) (e : Z),
    r = S754_finite false m e /\ bounded F32.prec F32.emax m e = true /\
    (dyadic (Z.pos m) e == q)%Q.
Proof.
  intros Hvalid (Hfin & Hval) Hpos.
  destruct r as [sr|sr| |sr m e]; try discriminate Hfin.
  - cbn [F2Q] in Hval. rewrite <- Hval in Hpos. by apply Qlt_irrefl in Hpos.
  - destruct sr; cbn [F2Q cond_Zopp] in Hval.
    + exfalso. rewrite <- Hval in Hpos. unfold dyadic in Hpos.
      assert (inject_Z (Z.neg m) * 2 ^ e < 0 * 2 ^ e)%Q as Hneg.
      { apply Qmult_lt_r; [apply pow2_pos|].
        change 0%Q with (inject_Z 0). rewrite <- Zlt_Qlt. lia. }
      rewrite Qmult_0_l in Hneg.
      apply (Qlt_irrefl 0). by apply (Qlt_trans _ _ _ Hpos).
    + by exists m, e.
Qed.

(** Narrowing a binary64 sum that is a binary32 number yields that number. *)
Lemma double_to_float_exact (M m : positive) (E e : Z) :
  bounded F32.prec F32.emax m e = true ->
  (dyadic (Z.pos M) E == dyadic (Z.pos m) e)%Q ->
  double_to_float (S754_finite false M E) = S754_finite false m e.
Proof. intros Hb Hv. by apply binary_round_exact. Qed.

(** The count as a binary32 number. *)
Lemma size_to_float_value (n : N) :
  (0 < n < 2 ^ 24)%N ->
  exists (m : positive) (e : Z),
    size_to_float n = S754_finite false m e /\
    (dyadic (Z.pos m) e == inject_Z (Z.of_N n))%Q.
Proof.
  intros Hn. destruct (size_to_float_exact n Hn) as (m & e & -> & He & Hm).
  exists m, e. split; [reflexivity|].
  rewrite Hm. transitivity (dyadic (Z.of_N n) 0).
  - rewrite <- (dyadic_shift (Z.of_N n) 0 (- e)) by lia.
    by replace (0 - - e)%Z with e by lia.
  - unfold dyadic. change (2 ^ 0)%Q with 1%Q. ring.
Qed.

Lemma fexp_mono (prec emax a b : Z) :
  (a <= b)%Z -> (fexp prec emax a <= fexp prec emax b)%Z.
Proof. unfold fexp. lia. Qed.

(** The binary32 quotient of two positive numbers whose quotient is a
    binary32 number is that number. *)
Lemma F32_div_exact (mx my mq : positive) (ex ey eq : Z) :
  bounded F32.prec F32.emax mq eq = true ->
  (dyadic (Z.pos mx) ex == dyadic (Z.pos mq) eq * dyadic (Z.pos my) ey)%Q ->
  F32.div (S754_finite false mx ex) (S754_finite false my ey)
  = S754_finite false mq eq.
Proof.
  intros Hb Hv.
  pose proof Hb as Hb'. unfold bounded, canonical_mantissa in Hb'.
  apply andb_prop in Hb' as [Hc _]. apply Z.eqb_eq in Hc.
  rewrite <- dyadic_mult in Hv.
  unfold F32.div, SFdiv, SFdiv_core_binary. cbn [Zdigits2 xorb].
  set (d1 := Z.pos (digits2_pos mx)).
  set (d2 := Z.pos (digits2_pos my)).
  set (dq := Z.pos (digits2_pos mq)) in *.
  set (e' := Z.min (fexp F32.prec F32.emax (d1 + ex - (d2 + ey))) (ex - ey)).
  (* the exponent of the quotient computed is not above that of the result *)
  assert (d1 + ex - (d2 + ey) <= dq + eq)%Z as Hmag.
  { pose proof (dyadic_eq _ _ _ _ Hv) as H.
    set (c := Z.min ex (eq + ey)) in H.
    assert (Z.log2 (Z.pos mx * 2 ^ (ex - c))
            = Z.log2 (Z.pos mq * Z.pos my * 2 ^ (eq + ey - c)))
      as Hlog by (by rewrite H).
    rewrite !Z.log2_mul_pow2 in Hlog by lia.
    pose proof (Z.log2_mul_above (Z.pos mq) (Z.pos my)
                  ltac:(lia) ltac:(lia)) as Habove.
    unfold d1, d2, dq. rewrite !digits2_pos_log2. lia. }
  assert (e' <= eq)%Z as He'.
  { pose proof (fexp_mono F32.prec F32.emax _ _ Hmag) as Hmono.
    rewrite Hc in Hmono. unfold e'. lia. }
  assert (0 <= ex - ey - e')%Z as Hs by (unfold e'; lia).
  assert ((match (ex - ey - e')%Z with
           | 0%Z => Z.pos mx
           | Z.pos _ => Z.shiftl (Z.pos mx) (ex - ey - e')
           | Z.neg _ => 0%Z
           end)
          = Z.pos mq * 2 ^ (eq - e') * Z.pos my)%Z as Hm'.
  { assert (Z.pos mx * 2 ^ (ex - ey - e')
            = Z.pos mq * 2 ^ (eq - e') * Z.pos my)%Z as Heq.
    { apply (dyadic_inj _ _ (ey + e')).
      rewrite <- (dyadic_shift (Z.pos mx) ex (ex - ey - e')) in Hv by lia.
      replace (ex - (ex - ey - e'))%Z with (ey + e')%Z in Hv by lia.
      rewrite Hv.
      rewrite <- (dyadic_shift (Z.pos mq * Z.pos my) (eq + ey) (eq - e'))
        by lia.
      replace (eq + ey - (eq - e'))%Z with (ey + e')%Z by lia.
      by replace (Z.pos mq * 2 ^ (eq - e') * Z.pos my)%Z
           with (Z.pos mq * Z.pos my * 2 ^ (eq - e'))%Z by lia. }
    destruct (ex - ey - e')%Z as [|p|p] eqn:Hp; try lia.
    rewrite Z.shiftl_mul_pow2 by lia. exact Heq. }
  change (IntDef.Z.div_eucl) with Z.div_eucl.
  rewrite Hm', div_eucl_exact.
  assert (new_location (Z.pos my) 0 = loc_Exact) as ->.
  { unfold new_location, new_location_even, new_location_odd.
    by destruct (IntDef.Z.even (Z.pos my)). }
  assert (0 < 2 ^ (eq - e'))%Z as Hpow by (apply Z.pow_pos_nonneg; lia).
  destruct (Z.pos mq * 2 ^ (eq - e'))%Z as [|P|P] eqn:HP; try lia.
  apply binary_round_aux_exact; [exact Hb| |exact He'].
  rewrite <- HP.
  rewrite <- (dyadic_shift (Z.pos mq) eq (eq - e')) by lia.
  by replace (eq - (eq - e'))%Z with e' by lia.
Qed.

(** ** The mean error and the arithmetic mean *)

(** C8 (as amended): the mean error of a predicted face is computed in
    floating point: the errors are added in binary64, the sum is narrowed
    to binary32 and divided in binary32 by the count.  For a face with a
    non-empty errors sequence it is the arithmetic mean of the errors, the
    sum divided by the count, whenever none of these steps has to round:
    the errors are fewer than [2^24] non-negative multiples of a power of
    two [2^s] with a sum below [2^(53+s)], and both the sum and the mean
    are binary32 numbers. *)
Theorem C8_mean_error_is_the_mean_when_nothing_is_rounded
    (getNormalizedErrors :
       FaceAnnotation -> FaceAnnotation -> ErrorMeasure -> list N * list F32.t)
    (self : FaceAlignment) (ann face : FaceAnnotation) (s : Z) :
  let errors := face_errors getNormalizedErrors self ann face in
  errors <> [] ->
  (N.of_nat (length errors) < 2 ^ 24)%N ->
  (-149 <= s <= 104)%Z ->
  Forall (on_grid s) errors ->
  (exact_sum errors < dyadic (2 ^ 53) s)%Q ->
  binary32_number (exact_sum errors) ->
  binary32_number (exact_mean errors) ->
  is_number (mean_error errors) (exact_mean errors).
Proof.
  intros errors. clearbody errors.
  intros Hne Hlen Hs Hgrid Hbound (x & Hxv & Hx) (r & Hrv & Hr).
  destruct (on_grid_numbers s errors Hgrid) as (ks & Hks).
  pose proof (exact_sum_on_grid s errors ks Hks) as Hsum.
  set (S := foldr N.add 0%N ks) in *.
  assert (Z.of_N S < 2 ^ 53)%Z as HS.
  { rewrite Hsum in Hbound. by apply dyadic_lt in Hbound. }
  pose proof (accumulate_on_grid s errors ks Hs Hgrid Hks 0%N
                (S754_zero false) eq_refl) as Hacc.
  rewrite N.add_0_l in Hacc. fold S in Hacc. specialize (Hacc HS).
  fold F64.zero in Hacc. fold (accumulate errors) in Hacc.
  set (n := N.of_nat (length errors)) in *.
  assert (0 < n)%N as Hn by (unfold n; destruct errors; [done|simpl; lia]).
  destruct (size_to_float_value n (conj Hn Hlen)) as (my & ey & Hy & Hyv).
  assert (~ (inject_Z (Z.of_N n) == 0)%Q) as Hn0.
  { intros H. change 0%Q with (inject_Z 0) in H.
    apply (proj1 (inject_Z_injective _ _)) in H. lia. }
  assert (exact_mean errors * inject_Z (Z.of_N n) == exact_sum errors)%Q
    as Hmean.
  { unfold exact_mean. unfold n. rewrite nat_N_Z.
    fold n. field. unfold n in Hn0. by rewrite nat_N_Z in Hn0. }
  unfold mean_error. fold n. rewrite Hy.
  destruct S as [|S'] eqn:HSeq; cbn [holds_sum] in Hacc.
  - (* all errors are zero *)
    rewrite Hacc. cbn [double_to_float F32.div SFdiv xorb].
    split; [reflexivity|]. cbn [F2Q].
    assert (exact_sum errors == 0)%Q as H0
      by (rewrite Hsum; apply dyadic_0).
    unfold exact_mean. rewrite H0. unfold Qdiv. ring.
  - destruct Hacc as (M & E & -> & HM).
    assert (0 < exact_sum errors)%Q as Hpos.
    { rewrite Hsum. rewrite <- (dyadic_0 s) at 1.
      unfold dyadic. apply Qmult_lt_r; [apply pow2_pos|].
      by rewrite <- Zlt_Qlt. }
    destruct (positive_number_inv x _ Hxv Hx Hpos)
      as (mx & ex & -> & Hbx & Hxval).
    assert (0 < exact_mean errors)%Q as Hmpos.
    { apply (Qmult_lt_r _ _ (inject_Z (Z.of_N n))).
      - change 0%Q with (inject_Z 0). rewrite <- Zlt_Qlt. lia.
      - by rewrite Qmult_0_l, Hmean. }
    destruct (positive_number_inv r _ Hrv Hr Hmpos)
      as (mq & eq & -> & Hbq & Hqval).
    rewrite (double_to_float_exact M mx E ex Hbx)
      by (by rewrite HM, Hxval, Hsum).
    rewrite (F32_div_exact mx my mq ex ey eq Hbq)
      by (by rewrite Hxval, Hqval, Hyv, Hmean).
    split; [reflexivity|]. exact Hqval.
Qed.

Lemma C8_mean_error_is_the_mean_when_nothing_is_rounded_witness :
  is_number
    (mean_error (face_errors Sample.getNormalizedErrors
                   Sample_faces.by_height Sample_faces.ground_truth
                   Sample_faces.close))
    (exact_mean (face_errors Sample.getNormalizedErrors
                   Sample_faces.by_height Sample_faces.ground_truth
                   Sample_faces.close)).
Proof.
  apply (C8_mean_error_is_the_mean_when_nothing_is_rounded
           Sample.getNormalizedErrors Sample_faces.by_height
           Sample_faces.ground_truth Sample_faces.close (-30)).
  - discriminate.
  - reflexivity.
  - lia.
  - repeat constructor; exists 10737418%N; split; vm_compute; reflexivity.
  - vm_compute. reflexivity.
  - exists (S754_finite false 10737418 (-29)).
    repeat split; vm_compute; reflexivity.
  - exists f0_01. repeat split; vm_compute; reflexivity.
Defined.

(** Counterexample to C8 as the specification words it: for a face whose
    errors sequence is [FLT_MAX], [FLT_MAX], the arithmetic mean is the
    binary32 number [FLT_MAX], but the sum does not fit binary32 when it is
    narrowed, and the mean error computed is [+inf]. *)
Lemma C8_counterexample :
  let errors :=
    face_errors Sample_errors.overflowing Sample_faces.by_height
                Sample_faces.ground_truth Sample_faces.far in
  errors = [FLT_MAX; FLT_MAX] /\
  errors <> [] /\
  Forall (fun e => F32.valid e = true /\ is_finite e = true) errors /\
  is_number FLT_MAX (exact_mean errors) /\
  mean_error errors = S754_infinity false /\
  ~ is_number (mean_error errors) (exact_mean errors).
Proof.
  split; [reflexivity|]. split; [discriminate|].
  split; [by repeat constructor|].
  split; [by split; vm_compute|].
  split; [by vm_compute|].
  intros [Hfin _]. by vm_compute in Hfin.
Qed.

(** X1: a face with a single matched landmark has that landmark's error as
    its mean error, exactly: adding it to 0.0, narrowing the sum and
    dividing by 1.0 round nothing away (an error of -0.0 comes out as
    0.0). *)
Theorem X1_single_error_is_its_own_mean
    (getNormalizedErrors :
       FaceAnnotation -> FaceAnnotation -> ErrorMeasure -> list N * list F32.t)
    (self : FaceAlignment) (ann face : FaceAnnotation) (e : F32.t) :
  face_errors getNormalizedErrors self ann face = [e] ->
  F32.valid e = true ->
  face_mean_error getNormalizedErrors self ann face
  = match e with S754_zero _ => S754_zero false | _ => e end.
Proof.
  intros Herrors Hvalid. unfold face_mean_error. rewrite Herrors.
  by apply mean_error_singleton.
Qed.

Lemma X1_single_error_is_its_own_mean_witness :
  face_mean_error Sample.getNormalizedErrors Sample_faces.by_height
                  Sample_faces.ground_truth Sample_faces.one_match
  = F32.of_Z 5.
Proof.
  refine (X1_single_error_is_its_own_mean
            Sample.getNormalizedErrors Sample_faces.by_height
            Sample_faces.ground_truth Sample_faces.one_match (F32.of_Z 5)
            _ _); reflexivity.
Defined.

Example mean_error_close :
  face_mean_error Sample.getNormalizedErrors Sample_faces.by_height
                  Sample_faces.ground_truth Sample_faces.close = f0_01.
Proof. reflexivity. Qed.

Example mean_error_far :
  face_mean_error Sample.getNormalizedErrors Sample_faces.by_height
                  Sample_faces.ground_truth Sample_faces.far = F32.of_Z 5.
Proof. reflexivity. Qed.

Example mean_error_one_two_six :
  mean_error [F32.of_Z 1; F32.of_Z 2; F32.of_Z 6] = F32.of_Z 3.
Proof. reflexivity. Qed.

(** C7: a predicted face is hard exactly when its mean error compares
    strictly above the selected threshold, and exactly then its annotated
    image is persisted:
    - a face whose processing ends has changed the file system if and only if
      its mean error is above the threshold, and the change is its annotated
      image stored under the least free name;
    - with a free name left in the directory the processing of a face ends;
    - over the loop, every face is judged by its own mean error alone: the
      files of before stay, and as many files are added as faces are hard. *)
Theorem C7_persisted_iff_mean_error_above_threshold
    (getNormalizedErrors :
       FaceAnnotation -> FaceAnnotation -> ErrorMeasure -> list N * list F32.t)
    (float_to_string : F32.t -> string) (decoded_rows : string -> Z)
    (round_to_int : F32.t -> Z)
    (self : FaceAlignment) (dirpath : string) (ann : FaceAnnotation) :
  let above face :=
    F32.gt (mean_error (face_errors getNormalizedErrors self ann face))
           (save_threshold self) in
  let radius := marker_radius round_to_int ann in
  let thickness := line_thickness round_to_int ann in
  let note :=
    annotate getNormalizedErrors float_to_string self ann radius thickness in
  (forall fuel face image fs image' fs',
      save_face getNormalizedErrors float_to_string fuel self dirpath ann
                (save_threshold self) radius thickness face (image, fs)
      = Ret (image', fs') ->
      image' = note image face /\
      (fs' ≠ fs <-> above face = true) /\
      (above face = true ->
       exists n,
         least_free_number fs
           (candidate dirpath (basename (filename face))) n /\
         fs' = <[candidate dirpath (basename (filename face)) n := image']> fs))
  /\
  (forall face image fs,
      (N.of_nat (size fs) < UINT_MOD)%N ->
      exists turns, forall fuel, turns <= fuel ->
        exists st',
          save_face getNormalizedErrors float_to_string fuel self dirpath ann
                    (save_threshold self) radius thickness face (image, fs)
          = Ret st')
  /\
  (forall fuel faces fs image' fs',
      save_run getNormalizedErrors float_to_string decoded_rows round_to_int
               fuel self dirpath faces ann fs = Ret (image', fs') ->
      fs ⊆ fs' /\
      size fs' = size fs + length (filter (fun face => above face = true)
                                          faces)).
Proof.
  intros above radius thickness note. split; [|split].
  - intros fuel face image fs image' fs' H.
    destruct (above face) eqn:Habove.
    + apply save_face_hard_ret in H as (n & Hn & [= -> ->]); [|exact Habove].
      split; [done|]. split.
      * split; [done|]. intros _ Heq.
        destruct Hn as (_ & Hfree & _). apply Hfree.
        rewrite <- Heq. apply elem_of_dom.
        rewrite lookup_insert_eq. by eexists.
      * intros _. by exists n.
    + rewrite save_face_not_hard in H by exact Habove.
      injection H as <- <-. split; [done|]. split; [|done].
      split; [by intros []|discriminate].
  - intros face image fs Hroom.
    destruct (above face) eqn:Habove.
    + destruct (least_free_number_exists fs dirpath (filename face) Hroom)
        as (n & Hn).
      exists (S (N.to_nat n)). intros fuel Hfuel. eexists.
      apply (save_face_hard_least _ _ _ _ _ _ _ _ _ _ _ _ n Habove Hn). lia.
    + exists 0. intros fuel _. eexists.
      apply save_face_not_hard. exact Habove.
  - intros fuel faces fs image' fs' H. unfold save_run in H.
    by apply save_faces_ret in H as (_ & Hsub & Hsize).
Qed.

Lemma C7_persisted_iff_mean_error_above_threshold_witness :
  let image :=
    save_prepare Sample.decoded_rows Sample.round_to_int
                 Sample_faces.ground_truth in
  let image' :=
    annotate Sample.getNormalizedErrors Sample.float_to_string
             Sample_faces.by_height Sample_faces.ground_truth 3 2
             image Sample_faces.far in
  exists n,
    least_free_number ∅ (candidate "out/" (basename "img/face.png")) n /\
    ({[ "out/0_face.png" := image' ]} : gmap string Mat)
    = <[candidate "out/" (basename "img/face.png") n := image']> ∅.
Proof.
  intros image image'.
  assert (save_face Sample.getNormalizedErrors Sample.float_to_string 1
            Sample_faces.by_height "out/" Sample_faces.ground_truth
            (save_threshold Sample_faces.by_height)
            (marker_radius Sample.round_to_int Sample_faces.ground_truth)
            (line_thickness Sample.round_to_int Sample_faces.ground_truth)
            Sample_faces.far (image, ∅)
          = Ret (image', {[ "out/0_face.png" := image' ]})) as Hrun.
  { vm_compute. reflexivity. }
  pose proof (proj1 (C7_persisted_iff_mean_error_above_threshold
                       Sample.getNormalizedErrors Sample.float_to_string
                       Sample.decoded_rows Sample.round_to_int
                       Sample_faces.by_height "out/"
                       Sample_faces.ground_truth)
                    1 Sample_faces.far image ∅ image' _ Hrun)
    as (_ & _ & Hhard).
  apply Hhard. vm_compute. reflexivity.
Defined.

(** The comparison is strict: a mean error equal to the threshold (4.0 for
    the measure [height]) is not a hard case. *)
Example borderline_face_is_not_hard :
  face_mean_error Sample.getNormalizedErrors Sample_faces.by_height
                  Sample_faces.ground_truth Sample_faces.borderline
  = save_threshold Sample_faces.by_height /\
  save Sample.getNormalizedErrors Sample.float_to_string Sample.decoded_rows
       Sample.round_to_int 0 Sample_faces.by_height "out/"
       [Sample_faces.close; Sample_faces.borderline]
       Sample_faces.ground_truth ∅
  = Ret ∅.
Proof. split; vm_compute; reflexivity. Qed.

Lemma C6_hard_cases_go_to_least_free_names_witness :
  let image1 := Sample_files.blank in
  let image2 := draw Sample_files.blank
                     (cv_putText "5.000000" 10 470 FONT_HERSHEY_SIMPLEX 1
                                 red_color) in
  let fs := Sample_files.two_taken in
  let fs1 := <[ "out/2_face.png" := image1 ]> fs in
  let fs2 := <[ "out/3_face.png" := image2 ]> fs1 in
  exists n1 n2,
    let path := candidate "out/" (basename (filename Sample_faces.far)) in
    least_free_number fs path n1 /\
    least_free_number fs1 path n2 /\
    fs1 = <[path n1 := image1]> fs /\
    fs2 = <[path n2 := image2]> fs1 /\
    path n1 ≠ path n2 /\
    fs2 !! path n1 = Some image1 /\
    fs2 !! path n2 = Some image2 /\
    (forall q, q ∈ dom fs -> fs2 !! q = fs !! q).
Proof.
  intros image1 image2 fs fs1 fs2.
  assert (write_hard_case 3 "out/" Sample_faces.far image1 fs = Ret fs1)
    as H1 by (vm_compute; reflexivity).
  assert (write_hard_case 4 "out/" Sample_faces.farther image2 fs1 = Ret fs2)
    as H2 by (vm_compute; reflexivity).
  exact (proj1 (proj2 (proj2 (C6_hard_cases_go_to_least_free_names
                                fs "out/")))
               Sample_faces.far Sample_faces.farther image1 image2 3 4
               fs1 fs2 eq_refl H1 H2).
Defined.

Example two_hard_cases_in_sequence :
  let image1 := Sample_files.blank in
  let image2 := draw Sample_files.blank
                     (cv_putText "5.000000" 10 470 FONT_HERSHEY_SIMPLEX 1
                                 red_color) in
  (fs1 ← write_hard_case 3 "out/" Sample_faces.far image1
                         Sample_files.two_taken;
   write_hard_case 4 "out/" Sample_faces.farther image2 fs1)
  = Ret (<[ "out/3_face.png" := image2 ]>
           (<[ "out/2_face.png" := image1 ]> Sample_files.two_taken)).
Proof. vm_compute. reflexivity. Qed.

(** ** [show] and the exception of [substr] *)

(** X3: [show] draws the skeleton of the ground truth in its two tones and
    then, in order, the skeleton of every detected face in the other two
    tones, after what the viewer already holds. *)
Theorem X3_show_draws_ground_truth_then_faces
    (round_to_int : F32.t -> Z) (viewer : list DrawCmd)
    (faces : list FaceAnnotation) (ann : FaceAnnotation) :
  show round_to_int viewer faces ann
  = viewer
    ++ ground_truth_overlay round_to_int ann
    ++ flat_map (fun face =>
         flat_map (fun part =>
                     skeleton green_color red_color
                              (marker_radius round_to_int ann)
                              (line_thickness round_to_int ann)
                              (landmarks part))
                  (parts face)) faces.
Proof.
  unfold show, ground_truth_overlay.
  by rewrite draw_faces_skeleton, draw_parts_skeleton, <- app_assoc.
Qed.

Lemma write_hard_case_no_throw (fuel : nat) (dirpath : string)
    (face : FaceAnnotation) (image : Mat) (fs : gmap string Mat) :
  write_hard_case fuel dirpath face image fs ≠ OutOfRange.
Proof.
  unfold write_hard_case.
  pose proof (probe_filepath_no_throw fs dirpath (filename face) fuel 0)
    as Hprobe.
  by destruct (probe_filepath fuel fs dirpath (filename face)
                 (find_last_of (filename face) "/") 0).
Qed.

Lemma save_faces_no_throw
    (getNormalizedErrors :
       FaceAnnotation -> FaceAnnotation -> ErrorMeasure -> list N * list F32.t)
    (float_to_string : F32.t -> string)
    (fuel : nat) (self : FaceAlignment) (dirpath : string)
    (ann : FaceAnnotation) (threshold : F32.t) (radius thickness : Z)
    (faces : list FaceAnnotation) (st : Mat * gmap string Mat) :
  save_faces getNormalizedErrors float_to_string fuel self dirpath ann
             threshold radius thickness faces st ≠ OutOfRange.
Proof.
  revert st. induction faces as [|face rest IH]; intros [image fs]; [done|].
  cbn [save_faces]. rewrite save_face_unfold.
  destruct (is_hard getNormalizedErrors self ann threshold face).
  - pose proof (write_hard_case_no_throw fuel dirpath face
                  (annotate getNormalizedErrors float_to_string self ann
                            radius thickness image face) fs) as Hw.
    destruct (write_hard_case fuel dirpath face _ fs) as [fs'| |];
      [|done|done].
    rewrite !res_bind_Ret. apply IH.
  - rewrite res_bind_Ret. apply IH.
Qed.

(** X2: [save] never leaves by the [std::out_of_range] of [substr]: the
    position handed to it, one past the last slash of the file name or 0
    when there is none, is never beyond the end of the file name. *)
Theorem X2_save_never_throws
    (getNormalizedErrors :
       FaceAnnotation -> FaceAnnotation -> ErrorMeasure -> list N * list F32.t)
    (float_to_string : F32.t -> string) (decoded_rows : string -> Z)
    (round_to_int : F32.t -> Z)
    (fuel : nat) (self : FaceAlignment) (dirpath : string)
    (faces : list FaceAnnotation) (ann : FaceAnnotation)
    (fs : gmap string Mat) :
  save getNormalizedErrors float_to_string decoded_rows round_to_int
       fuel self dirpath faces ann fs ≠ OutOfRange.
Proof.
  unfold save, save_run.
  pose proof (save_faces_no_throw getNormalizedErrors float_to_string fuel
                self dirpath ann (save_threshold self)
                (marker_radius round_to_int ann)
                (line_thickness round_to_int ann) faces
                (save_prepare decoded_rows round_to_int ann, fs)) as H.
  by destruct (save_faces _ _ _ _ _ _ _ _ _ _ _) as [st| |].
Qed.

(** ** [evaluate]: the records written to the stream *)

Lemma find_if_head_filter (idx : N) (ls : list FaceLandmark) :
  find_if idx ls = head (filter (fun l => feature_idx l = idx) ls).
Proof.
  induction ls as [|obj rest IH]; [reflexivity|].
  simpl. rewrite filter_cons.
  by destruct (decide (feature_idx obj = idx)).
Qed.

Lemma head_app_Some {A : Type} (l1 l2 : list A) (a : A) :
  head l1 = Some a -> head (l1 ++ l2) = Some a.
Proof. by destruct l1. Qed.

Lemma head_app_None {A : Type} (l1 l2 : list A) :
  head l1 = None -> head (l1 ++ l2) = head l2.
Proof. by destruct l1. Qed.

Lemma put_occluded_first_landmark (idx : N) (ps : list FacePart)
    (output : list StreamItem) :
  put_occluded idx ps output
  = output ++ match first_landmark idx ps with
              | Some l => [put_string " "; put_float (occluded l)]
              | None => []
              end.
Proof.
  unfold first_landmark.
  induction ps as [|part rest IH]; simpl.
  - by rewrite app_nil_r.
  - rewrite filter_app, find_if_head_filter.
    destruct (head (filter _ (landmarks part))) as [found|] eqn:Hfound.
    + by rewrite (head_app_Some _ _ found).
    + by rewrite head_app_None.
Qed.

Lemma uint_succ_of_nat (k : nat) :
  (N.of_nat (S k) < UINT_MOD)%N -> uint_succ (N.of_nat k) = N.of_nat (S k).
Proof.
  intros H. unfold uint_succ.
  rewrite N.mod_small by lia. lia.
Qed.

Lemma evaluate_indices_step (fuel : nat) (face ann : FaceAnnotation)
    (indices : list N) (errors : list F32.t) (k : nat)
    (output : list StreamItem) (idx : N) (e : F32.t) :
  indices !! k = Some idx ->
  errors !! k = Some e ->
  evaluate_indices (S fuel) face ann indices errors (N.of_nat k) output
  = evaluate_indices fuel face ann indices errors (uint_succ (N.of_nat k))
      (output ++ error_fields face ann (idx, e)).
Proof.
  intros Hidx He. cbn [evaluate_indices].
  rewrite (proj2 (N.ltb_lt _ _))
    by (apply lookup_lt_Some in Hidx; lia).
  rewrite Nat2N.id, Hidx, He.
  unfold error_fields, occlusion_field. simpl fst. simpl snd.
  by rewrite !put_occluded_first_landmark, <- !app_assoc.
Qed.

(** The counter loop visits the indices in order and pairs each with the
    error at the same position. *)
Lemma evaluate_indices_from (face ann : FaceAnnotation) (indices : list N)
    (errors : list F32.t) (n : nat) :
  forall (k fuel : nat) (output : list StreamItem),
    n + k = length indices ->
    length indices <= length errors ->
    (N.of_nat (length indices) < UINT_MOD)%N ->
    n < fuel ->
    evaluate_indices fuel face ann indices errors (N.of_nat k) output
    = Ret (output
           ++ flat_map (error_fields face ann) (drop k (zip indices errors))).
Proof.
  induction n as [|n IH]; intros k fuel output Hk Hlen Hsmall Hfuel.
  - destruct fuel as [|fuel]; [lia|]. cbn [evaluate_indices].
    rewrite (proj2 (N.ltb_ge _ _)) by lia.
    rewrite drop_ge; [by rewrite app_nil_r|].
    rewrite length_zip_with. lia.
  - destruct fuel as [|fuel]; [lia|].
    destruct (lookup_lt_is_Some_2 indices k) as [idx Hidx]; [lia|].
    destruct (lookup_lt_is_Some_2 errors k) as [e He]; [lia|].
    rewrite (evaluate_indices_step _ _ _ _ _ _ _ idx e) by done.
    rewrite uint_succ_of_nat by lia.
    rewrite IH by lia.
    rewrite (drop_S (zip indices errors) (idx, e) k).
    + simpl. by rewrite <- app_assoc.
    + rewrite lookup_zip_with, Hidx. simpl. by rewrite He.
Qed.

(** The read of [errors[j]] past the end of [errors]. *)
Lemma evaluate_indices_short (face ann : FaceAnnotation) (indices : list N)
    (errors : list F32.t) (n : nat) :
  forall (k fuel : nat) (output : list StreamItem),
    n + k = length errors ->
    length errors < length indices ->
    (N.of_nat (length errors) < UINT_MOD)%N ->
    n < fuel ->
    evaluate_indices fuel face ann indices errors (N.of_nat k) output
    = OutOfRange.
Proof.
  induction n as [|n IH]; intros k fuel output Hk Hlen Hsmall Hfuel.
  - destruct fuel as [|fuel]; [lia|]. cbn [evaluate_indices].
    rewrite (proj2 (N.ltb_lt _ _)) by lia.
    rewrite Nat2N.id.
    destruct (lookup_lt_is_Some_2 indices k) as [idx ->]; [lia|].
    by rewrite (lookup_ge_None_2 errors k) by lia.
  - destruct fuel as [|fuel]; [lia|].
    destruct (lookup_lt_is_Some_2 indices k) as [idx Hidx]; [lia|].
    destruct (lookup_lt_is_Some_2 errors k) as [e He]; [lia|].
    rewrite (evaluate_indices_step _ _ _ _ _ _ _ idx e) by done.
    rewrite uint_succ_of_nat by lia.
    apply IH; lia.
Qed.

(** The counter never reaches a size of [2^32] or more. *)
Lemma evaluate_indices_wraps (face ann : FaceAnnotation) (indices : list N)
    (errors : list F32.t) :
  (UINT_MOD <= N.of_nat (length indices))%N ->
  (UINT_MOD <= N.of_nat (length errors))%N ->
  forall (fuel : nat) (j : N) (output : list StreamItem),
    (j < UINT_MOD)%N ->
    evaluate_indices fuel face ann indices errors j output = NoFuel.
Proof.
  intros Hi He. induction fuel as [|fuel IH]; intros j output Hj;
    [reflexivity|].
  cbn [evaluate_indices].
  rewrite (proj2 (N.ltb_lt _ _)) by lia.
  destruct (lookup_lt_is_Some_2 indices (N.to_nat j)) as [idx ->]; [lia|].
  destruct (lookup_lt_is_Some_2 errors (N.to_nat j)) as [e ->]; [lia|].
  apply IH. unfold uint_succ. apply N.mod_lt. unfold UINT_MOD. lia.
Qed.

Section EvaluateLoop.
Variable getNormalizedErrors :
  FaceAnnotation -> FaceAnnotation -> ErrorMeasure -> list N * list F32.t.
Variable self : FaceAlignment.
Variable ann : FaceAnnotation.

Local Abbreviation ids := (face_indices getNormalizedErrors self ann).
Local Abbreviation errs := (face_errors getNormalizedErrors self ann).
Local Abbreviation line := (face_record getNormalizedErrors self ann).

Lemma evaluate_face_unfold (fuel : nat) (face : FaceAnnotation)
    (output : list StreamItem) :
  evaluate_face getNormalizedErrors fuel self ann face output
  = output' ← evaluate_indices fuel face ann (ids face) (errs face) 0
                (output ++ [put_component_class; put_string " ";
                            put_string (filename ann)]);
    mret (output' ++ [put_endl]).
Proof.
  unfold evaluate_face, face_indices, face_errors.
  by destruct (getNormalizedErrors face ann (_measure self)).
Qed.

Lemma evaluate_face_record (fuel : nat) (face : FaceAnnotation)
    (output : list StreamItem) :
  errors_cover_indices getNormalizedErrors self ann face ->
  length (ids face) < fuel ->
  evaluate_face getNormalizedErrors fuel self ann face output
  = Ret (output ++ line face).
Proof.
  intros (Hsmall & Hlen) Hfuel. rewrite evaluate_face_unfold.
  rewrite (evaluate_indices_from face ann (ids face) (errs face)
             (length (ids face)) 0 fuel) by (done || lia).
  rewrite res_bind_Ret. unfold face_record. simpl drop.
  by rewrite <- !app_assoc.
Qed.

Lemma evaluate_records (fuel : nat) (faces : list FaceAnnotation) :
  forall output : list StreamItem,
    Forall (fun face =>
              errors_cover_indices getNormalizedErrors self ann face /\
              length (ids face) < fuel) faces ->
    evaluate getNormalizedErrors fuel self output faces ann
    = Ret (output ++ flat_map line faces).
Proof.
  induction faces as [|face rest IH]; intros output Hall.
  - simpl. by rewrite app_nil_r.
  - apply Forall_cons in Hall as ((Hcover & Hfuel) & Hrest).
    cbn [evaluate]. rewrite evaluate_face_record by done.
    rewrite res_bind_Ret, IH by done. simpl. by rewrite <- app_assoc.
Qed.
End EvaluateLoop.

(** X4: when the error computer returns, for every face, at least as many
    errors as indices and fewer than [2^32] indices, [evaluate] ends and
    leaves in the stream what it held before followed by one record per
    face, in the order of the faces: the component class, the file name of
    the ground truth, then for every index its number, the error at the same
    position and the occlusion fields, then the end of line. *)
Theorem X4_evaluate_writes_one_record_per_face
    (getNormalizedErrors :
       FaceAnnotation -> FaceAnnotation -> ErrorMeasure -> list N * list F32.t)
    (self : FaceAlignment) (ann : FaceAnnotation)
    (faces : list FaceAnnotation) (output : list StreamItem) (fuel : nat) :
  Forall (errors_cover_indices getNormalizedErrors self ann) faces ->
  Forall (fun face =>
            length (face_indices getNormalizedErrors self ann face) < fuel)
         faces ->
  evaluate getNormalizedErrors fuel self output faces ann
  = Ret (output ++ flat_map (face_record getNormalizedErrors self ann) faces).
Proof.
  intros Hcover Hfuel. apply evaluate_records.
  rewrite Forall_forall in Hcover, Hfuel. apply Forall_forall.
  intros face Hface. split; [by apply Hcover|by apply Hfuel].
Qed.

Lemma X4_evaluate_writes_one_record_per_face_witness :
  evaluate Sample.getNormalizedErrors 3 Sample_faces.by_height
           [put_string "header"; put_endl]
           [Sample_faces.close; Sample_faces.unmatched]
           Sample_faces.ground_truth
  = Ret ([put_string "header"; put_endl]
         ++ flat_map (face_record Sample.getNormalizedErrors
                        Sample_faces.by_height Sample_faces.ground_truth)
                     [Sample_faces.close; Sample_faces.unmatched]).
Proof.
  apply (X4_evaluate_writes_one_record_per_face
           Sample.getNormalizedErrors Sample_faces.by_height
           Sample_faces.ground_truth
           [Sample_faces.close; Sample_faces.unmatched]
           [put_string "header"; put_endl] 3).
  - repeat constructor; vm_compute; lia.
  - repeat constructor; vm_compute; lia.
Defined.

(** The two records of the example: a face with both landmarks matched, and
    a face none of whose landmarks is in the ground truth, whose record has
    no index at all. *)
Example evaluate_close_and_unmatched :
  exists e1 e2,
    evaluate Sample.getNormalizedErrors 3 Sample_faces.by_height []
             [Sample_faces.close; Sample_faces.unmatched]
             Sample_faces.ground_truth
    = Ret [put_component_class; put_string " "; put_string "img/face.png";
           put_string " "; put_uint 1; put_string " "; put_float e1;
           put_string " "; put_float Sample_faces.zero;
           put_string " "; put_float Sample_faces.zero;
           put_string " "; put_uint 2; put_string " "; put_float e2;
           put_string " "; put_float Sample_faces.zero;
           put_string " "; put_float Sample_faces.zero;
           put_endl;
           put_component_class; put_string " "; put_string "img/face.png";
           put_endl].
Proof. eexists _, _. vm_compute. reflexivity. Qed.

(** X5: the occlusion written for an index is that of the first landmark
    with that feature index among the landmarks of the parts taken in
    order, and when the annotation has no such landmark nothing is written
    in its place. *)
Theorem X5_occlusion_of_first_matching_landmark
    (idx : N) (a : FaceAnnotation) (output : list StreamItem) :
  put_occluded idx (parts a) output
  = output
    ++ match head (filter (fun l => feature_idx l = idx)
                          (flat_map landmarks (parts a))) with
       | Some l => [put_string " "; put_float (occluded l)]
       | None => []
       end.
Proof. apply put_occluded_first_landmark. Qed.

(** X6: when the error computer returns fewer errors than indices for the
    first face, [evaluate] reads [errors[j]] past the end of [errors]. *)
Theorem X6_evaluate_reads_past_missing_errors
    (getNormalizedErrors :
       FaceAnnotation -> FaceAnnotation -> ErrorMeasure -> list N * list F32.t)
    (self : FaceAlignment) (ann face : FaceAnnotation)
    (rest : list FaceAnnotation) (output : list StreamItem) (fuel : nat) :
  length (face_errors getNormalizedErrors self ann face)
  < length (face_indices getNormalizedErrors self ann face) ->
  (N.of_nat (length (face_errors getNormalizedErrors self ann face))
   < UINT_MOD)%N ->
  length (face_errors getNormalizedErrors self ann face) < fuel ->
  evaluate getNormalizedErrors fuel self output (face :: rest) ann
  = OutOfRange.
Proof.
  intros Hshort Hsmall Hfuel. cbn [evaluate].
  rewrite evaluate_face_unfold.
  by rewrite (evaluate_indices_short face ann _ _
                (length (face_errors getNormalizedErrors self ann face))
                0 fuel) by (done || lia).
Qed.

Lemma X6_evaluate_reads_past_missing_errors_witness :
  evaluate Sample_errors.one_error_short 2 Sample_faces.by_height []
           [Sample_faces.close] Sample_faces.ground_truth
  = OutOfRange.
Proof.
  apply (X6_evaluate_reads_past_missing_errors
           Sample_errors.one_error_short Sample_faces.by_height
           Sample_faces.ground_truth Sample_faces.close [] [] 2);
    [simpl; lia|reflexivity|simpl; lia].
Defined.

(** X7: the counter [j] is an [unsigned int] compared with a
    [std::size_t]: when the error computer returns [2^32] or more indices
    (and errors) for the first face, [j] wraps to 0 before it reaches the
    size and the loop of [evaluate] never ends. *)
Theorem X7_evaluate_counter_wraps
    (getNormalizedErrors :
       FaceAnnotation -> FaceAnnotation -> ErrorMeasure -> list N * list F32.t)
    (self : FaceAlignment) (ann face : FaceAnnotation)
    (rest : list FaceAnnotation) (output : list StreamItem) :
  (UINT_MOD
   <= N.of_nat (length (face_indices getNormalizedErrors self ann face)))%N ->
  (UINT_MOD
   <= N.of_nat (length (face_errors getNormalizedErrors self ann face)))%N ->
  diverges (fun fuel =>
    evaluate getNormalizedErrors fuel self output (face :: rest) ann).
Proof.
  intros Hi He fuel. cbn [evaluate]. rewrite evaluate_face_unfold.
  rewrite evaluate_indices_wraps; [reflexivity|done|done|reflexivity].
Qed.

Lemma X7_evaluate_counter_wraps_witness :
  diverges (fun fuel =>
    evaluate Sample_errors.too_many fuel Sample_faces.by_height []
             [Sample_faces.close] Sample_faces.ground_truth).
Proof.
  apply (X7_evaluate_counter_wraps Sample_errors.too_many
           Sample_faces.by_height Sample_faces.ground_truth
           Sample_faces.close [] []).
  - unfold face_indices, Sample_errors.too_many.
    change (?a, ?b).1 with a. rewrite repeat_length, N2Nat.id.
    apply N.le_refl.
  - unfold face_errors, Sample_errors.too_many.
    change (?a, ?b).2 with b. rewrite repeat_length, N2Nat.id.
    apply N.le_refl.
Defined.

(** ** From the command line to the members and the threshold *)

(** X8: [parseOptions] reads the options [measure] and [database] and
    nothing else: two command lines that agree on these two options leave
    the same members, whatever other options they carry and whatever the
    object held before (both members are always overwritten, since both
    options have a default). *)
Theorem X8_parseOptions_reads_two_options_only
    (parsed1 parsed2 : gmap string string) (self1 self2 : FaceAlignment) :
  parsed1 !! "measure" = parsed2 !! "measure" ->
  parsed1 !! "database" = parsed2 !! "database" ->
  parseOptions parsed1 self1 = parseOptions parsed2 self2.
Proof. intros Hm Hd. by rewrite !parseOptions_spec, Hm, Hd. Qed.

Lemma X8_parseOptions_reads_two_options_only_witness :
  parseOptions {[ "measure" := "corners"; "verbose" := "1" ]}
               {| _measure := diagonal; _database := "wflw" |}
  = parseOptions {[ "measure" := "corners" ]}
                 {| _measure := pupils; _database := "" |}.
Proof.
  apply (X8_parseOptions_reads_two_options_only
           {[ "measure" := "corners"; "verbose" := "1" ]}
           {[ "measure" := "corners" ]}
           {| _measure := diagonal; _database := "wflw" |}
           {| _measure := pupils; _database := "" |});
    vm_compute; reflexivity.
Defined.

(** X9: the threshold of [save] as a function of the command line.  With no
    [measure] option the default [height] applies and the threshold is 4.0
    whatever the database; 8.0 and 10.0 are reached only with the measures
    [pupils] and [corners], 10.0 when the database option is [wflw]; any
    other measure string gives 3.0. *)
Theorem X9_threshold_from_command_line
    (parsed : gmap string string) (self : FaceAlignment) :
  save_threshold (parseOptions parsed self) =
  match parsed !! "measure" with
  | None => f4_0
  | Some m =>
    if String.eqb m "height" then f4_0
    else if String.eqb m "pupils" || String.eqb m "corners"
    then if decide (parsed !! "database" = Some "wflw") then f10_0 else f8_0
    else f3_0
  end.
Proof.
  rewrite parseOptions_spec, save_threshold_last_match.
  unfold threshold_last_match. cbn [_measure _database].
  destruct (parsed !! "measure") as [m|]; [|reflexivity].
  change (default "height" (Some m)) with m. unfold measure_of_string.
  assert (String.eqb (default "aflw" (parsed !! "database")) "wflw"
          = bool_decide (parsed !! "database" = Some "wflw")) as Hdb.
  { destruct (parsed !! "database") as [d|].
    - change (default "aflw" (Some d)) with d.
      destruct (String.eqb_spec d "wflw") as [->|Hne]; symmetry.
      + by apply bool_decide_eq_true_2.
      + apply bool_decide_eq_false_2. by intros [= ->].
    - symmetry. by apply bool_decide_eq_false_2. }
  rewrite Hdb.
  destruct (String.eqb_spec m "pupils") as [->|Hp];
    [by destruct (decide (parsed !! "database" = Some "wflw"));
       [rewrite bool_decide_eq_true_2|rewrite bool_decide_eq_false_2]|].
  destruct (String.eqb_spec m "corners") as [->|Hc];
    [by destruct (decide (parsed !! "database" = Some "wflw"));
       [rewrite bool_decide_eq_true_2|rewrite bool_decide_eq_false_2]|].
  by destruct (String.eqb_spec m "height").
Qed.

(** ** The discs and the sizes of what [show] draws *)

Lemma filter_flat_map {A B : Type} (P : B -> Prop)
    `{forall x, Decision (P x)} (f : A -> list B) (l : list A) :
  filter P (flat_map f l) = flat_map (fun x => filter P (f x)) l.
Proof.
  induction l as [|x l IH]; [reflexivity|].
  simpl. by rewrite filter_app, IH.
Qed.

Lemma fmap_flat_map {A B C : Type} (g : B -> C) (f : A -> list B)
    (l : list A) :
  g <$> flat_map f l = flat_map (fun x => g <$> f x) l.
Proof.
  induction l as [|x l IH]; [reflexivity|].
  simpl. by rewrite fmap_app, IH.
Qed.

Lemma flat_map_flat_map {A B C : Type} (g : B -> list C) (f : A -> list B)
    (l : list A) :
  flat_map g (flat_map f l) = flat_map (fun x => flat_map g (f x)) l.
Proof.
  induction l as [|x l IH]; [reflexivity|].
  simpl. by rewrite flat_map_app, IH.
Qed.

Lemma skeleton_circles normal occl radius thickness ls :
  filter is_circle (skeleton normal occl radius thickness ls)
  = disc normal occl radius <$> ls.
Proof.
  induction ls as [|it rest IH]; [reflexivity|].
  cbn [skeleton]. rewrite filter_app, filter_cons, IH.
  by destruct rest.
Qed.

Lemma parts_circles normal occl radius thickness ps :
  filter is_circle
    (flat_map (fun part => skeleton normal occl radius thickness
                             (landmarks part)) ps)
  = disc normal occl radius <$> flat_map landmarks ps.
Proof.
  rewrite filter_flat_map, fmap_flat_map.
  apply flat_map_ext. intros part. apply skeleton_circles.
Qed.

Lemma show_skeletons (round_to_int : F32.t -> Z)
    (faces : list FaceAnnotation) (ann : FaceAnnotation) :
  show round_to_int [] faces ann
  = ground_truth_overlay round_to_int ann
    ++ flat_map (fun face =>
         flat_map (fun part =>
                     skeleton green_color red_color
                              (marker_radius round_to_int ann)
                              (line_thickness round_to_int ann)
                              (landmarks part))
                  (parts face)) faces.
Proof.
  unfold show, ground_truth_overlay.
  by rewrite draw_faces_skeleton, draw_parts_skeleton.
Qed.

(** X10: [show] draws exactly one disc per landmark, centred on it: first
    those of the ground truth in cyan or blue, then those of the detected
    faces in green or red, each in the order of the parts and of their
    landmarks, the occluded tone going to the landmarks whose occlusion is
    not below 0.5. *)
Theorem X10_show_draws_one_disc_per_landmark
    (round_to_int : F32.t -> Z) (faces : list FaceAnnotation)
    (ann : FaceAnnotation) :
  filter is_circle (show round_to_int [] faces ann)
  = (disc cyan_color blue_color (marker_radius round_to_int ann)
       <$> flat_map landmarks (parts ann))
    ++ (disc green_color red_color (marker_radius round_to_int ann)
          <$> flat_map landmarks (flat_map parts faces)).
Proof.
  rewrite show_skeletons, filter_app. unfold ground_truth_overlay.
  rewrite parts_circles. f_equal.
  rewrite filter_flat_map, flat_map_flat_map, fmap_flat_map.
  apply flat_map_ext. intros face. apply parts_circles.
Qed.

Lemma skeleton_visible_size normal occl radius thickness ls :
  (3 <= radius)%Z -> (2 <= thickness)%Z ->
  Forall visible_size (skeleton normal occl radius thickness ls).
Proof.
  intros Hr Ht. induction ls as [|it rest IH]; [constructor|].
  cbn [skeleton]. apply Forall_app. split.
  - destruct rest; repeat constructor. exact Ht.
  - constructor; [by split|exact IH].
Qed.

Lemma parts_visible_size normal occl radius thickness ps :
  (3 <= radius)%Z -> (2 <= thickness)%Z ->
  Forall visible_size
    (flat_map (fun part => skeleton normal occl radius thickness
                             (landmarks part)) ps).
Proof.
  intros Hr Ht. induction ps as [|part ps IH]; [constructor|].
  simpl. apply Forall_app. split; [by apply skeleton_visible_size|exact IH].
Qed.

(** X11: whatever the height of the ground-truth box (zero, negative, not a
    number) and whatever [roundf] makes of it, [show] draws no text, every
    line it draws is at least 2 thick and every disc is filled and has a
    radius of at least 3. *)
Theorem X11_show_draws_visible_sizes
    (round_to_int : F32.t -> Z) (faces : list FaceAnnotation)
    (ann : FaceAnnotation) :
  Forall visible_size (show round_to_int [] faces ann).
Proof.
  assert (3 <= marker_radius round_to_int ann)%Z as Hr
    by apply Z.le_max_r.
  assert (2 <= line_thickness round_to_int ann)%Z as Ht
    by apply Z.le_max_r.
  rewrite show_skeletons. apply Forall_app. split.
  - by apply parts_visible_size.
  - induction faces as [|face faces IH]; [constructor|].
    simpl. apply Forall_app. split; [by apply parts_visible_size|exact IH].
Qed.

(** ** The images and the names [save] leaves behind *)

Lemma skeleton_no_text normal occl radius thickness ls :
  filter is_text (skeleton normal occl radius thickness ls) = [] /\
  filter (fun c => negb (is_text c))
         (skeleton normal occl radius thickness ls)
  = skeleton normal occl radius thickness ls.
Proof.
  induction ls as [|it rest [IH1 IH2]]; [done|].
  cbn [skeleton]. rewrite !filter_app, !filter_cons, IH1, IH2.
  by destruct rest.
Qed.

Lemma parts_no_text normal occl radius thickness ps :
  filter is_text
    (flat_map (fun part => skeleton normal occl radius thickness
                             (landmarks part)) ps) = [] /\
  filter (fun c => negb (is_text c))
    (flat_map (fun part => skeleton normal occl radius thickness
                             (landmarks part)) ps)
  = flat_map (fun part => skeleton normal occl radius thickness
                            (landmarks part)) ps.
Proof.
  induction ps as [|part ps [IH1 IH2]]; [done|].
  simpl. rewrite !filter_app, IH1, IH2.
  by destruct (skeleton_no_text normal occl radius thickness
                 (landmarks part)) as [-> ->].
Qed.

Section Overlays.
Variable getNormalizedErrors :
  FaceAnnotation -> FaceAnnotation -> ErrorMeasure -> list N * list F32.t.
Variable float_to_string : F32.t -> string.
Variable self : FaceAlignment.
Variable ann : FaceAnnotation.
Variable radius thickness rows : Z.

Local Abbreviation overlay :=
  (face_overlay getNormalizedErrors float_to_string self ann radius
                thickness rows).
Local Abbreviation caption :=
  (fun face =>
     cv_putText
       (float_to_string (face_mean_error getNormalizedErrors self ann face))
       10 (rows - 10) FONT_HERSHEY_SIMPLEX 1 red_color).

Lemma overlays_texts (faces : list FaceAnnotation) :
  filter is_text (flat_map overlay faces) = caption <$> faces.
Proof.
  induction faces as [|face faces IH]; [reflexivity|].
  simpl. rewrite filter_app, IH. unfold face_overlay.
  rewrite filter_app.
  by destruct (parts_no_text green_color red_color radius thickness
                 (parts face)) as [-> _].
Qed.

Lemma overlays_skeletons (faces : list FaceAnnotation) :
  filter (fun c => negb (is_text c)) (flat_map overlay faces)
  = flat_map (fun face =>
       flat_map (fun part => skeleton green_color red_color radius thickness
                               (landmarks part)) (parts face)) faces.
Proof.
  induction faces as [|face faces IH]; [reflexivity|].
  simpl. rewrite filter_app, IH. unfold face_overlay.
  rewrite filter_app.
  destruct (parts_no_text green_color red_color radius thickness
              (parts face)) as [_ ->].
  by rewrite app_nil_r.
Qed.
End Overlays.

Lemma save_run_of_save
    (getNormalizedErrors :
       FaceAnnotation -> FaceAnnotation -> ErrorMeasure -> list N * list F32.t)
    (float_to_string : F32.t -> string) (decoded_rows : string -> Z)
    (round_to_int : F32.t -> Z)
    (fuel : nat) (self : FaceAlignment) (dirpath : string)
    (faces : list FaceAnnotation) (ann : FaceAnnotation)
    (fs fs' : gmap string Mat) :
  save getNormalizedErrors float_to_string decoded_rows round_to_int
       fuel self dirpath faces ann fs = Ret fs' ->
  exists image',
    save_run getNormalizedErrors float_to_string decoded_rows round_to_int
             fuel self dirpath faces ann fs = Ret (image', fs').
Proof.
  unfold save. intros H.
  apply res_bind_inv in H as ([image' fs1] & Hrun & [= <-]).
  by exists image'.
Qed.

(** X12: a file that [save] creates holds, for some face at position [k],
    what [show] draws for the ground truth and the faces up to that one,
    and on top of it one mean-error text per face up to that one, in the
    order of the faces, every text at the same point (10, rows - 10): the
    texts of an image are printed over one another. *)
Theorem X12_saved_image_is_show_plus_texts
    (getNormalizedErrors :
       FaceAnnotation -> FaceAnnotation -> ErrorMeasure -> list N * list F32.t)
    (float_to_string : F32.t -> string) (decoded_rows : string -> Z)
    (round_to_int : F32.t -> Z)
    (fuel : nat) (self : FaceAlignment) (dirpath : string)
    (faces : list FaceAnnotation) (ann : FaceAnnotation)
    (fs fs' : gmap string Mat) (filepath : string) (stored : Mat) :
  save getNormalizedErrors float_to_string decoded_rows round_to_int
       fuel self dirpath faces ann fs = Ret fs' ->
  fs !! filepath = None ->
  fs' !! filepath = Some stored ->
  exists k,
    k < length faces /\
    filter (fun c => negb (is_text c)) (mat_drawn stored)
    = show round_to_int [] (take (S k) faces) ann /\
    filter is_text (mat_drawn stored)
    = (fun face =>
         cv_putText
           (float_to_string
              (face_mean_error getNormalizedErrors self ann face))
           10 (decoded_rows (filename ann) - 10) FONT_HERSHEY_SIMPLEX 1
           red_color) <$> take (S k) faces.
Proof.
  intros Hsave Hold Hnew.
  apply save_run_of_save in Hsave as (image' & Hrun). unfold save_run in Hrun.
  destruct (save_faces_written _ _ _ _ _ _ _ _ _ _ _ _ _ _ _ _
              Hrun Hold Hnew) as (k & face & Hk & _ & ->).
  exists k. split; [by apply lookup_lt_Some in Hk|].
  rewrite annotate_all_spec, save_prepare_spec. cbn [mat_drawn mat_rows].
  rewrite !filter_app, overlays_texts, overlays_skeletons, show_skeletons.
  unfold ground_truth_overlay.
  by destruct (parts_no_text cyan_color blue_color
                 (marker_radius round_to_int ann)
                 (line_thickness round_to_int ann) (parts ann)) as [-> ->].
Qed.

Lemma X12_saved_image_is_show_plus_texts_witness :
  let stored :=
    annotate_all Sample.getNormalizedErrors Sample.float_to_string
      Sample_faces.by_height Sample_faces.ground_truth 3 2
      (save_prepare Sample.decoded_rows Sample.round_to_int
         Sample_faces.ground_truth)
      [Sample_faces.far; Sample_faces.farther] in
  exists k,
    k < 2 /\
    filter (fun c => negb (is_text c)) (mat_drawn stored)
    = show Sample.round_to_int []
           (take (S k) [Sample_faces.far; Sample_faces.farther])
           Sample_faces.ground_truth /\
    filter is_text (mat_drawn stored)
    = (fun face =>
         cv_putText
           (Sample.float_to_string
              (face_mean_error Sample.getNormalizedErrors
                 Sample_faces.by_height Sample_faces.ground_truth face))
           10 (Sample.decoded_rows (filename Sample_faces.ground_truth) - 10)
           FONT_HERSHEY_SIMPLEX 1 red_color)
      <$> take (S k) [Sample_faces.far; Sample_faces.farther].
Proof.
  intros stored.
  eapply (X12_saved_image_is_show_plus_texts
            Sample.getNormalizedErrors Sample.float_to_string
            Sample.decoded_rows Sample.round_to_int 5 Sample_faces.by_height
            "out/" [Sample_faces.far; Sample_faces.farther]
            Sample_faces.ground_truth ∅ _ "out/1_face.png").
  - vm_compute. reflexivity.
  - reflexivity.
  - vm_compute. reflexivity.
Defined.

(** ** Errors that are not numbers *)

Lemma SFadd_nan_r (prec emax : Z) (x : spec_float) :
  SFadd prec emax x S754_nan = S754_nan.
Proof. by destruct x. Qed.

Lemma accumulate_from_nan (errors : list F32.t) :
  foldl (fun acc e => F64.add acc (float_to_double e)) S754_nan errors
  = S754_nan.
Proof. induction errors as [|e errors IH]; [reflexivity|exact IH]. Qed.

Lemma accumulate_nan (errors : list F32.t) :
  S754_nan ∈ errors -> accumulate errors = S754_nan.
Proof.
  unfold accumulate. generalize F64.zero.
  induction errors as [|e errors IH]; intros acc Hin.
  - by apply elem_of_nil in Hin.
  - apply elem_of_cons in Hin as [<-|Hin]; simpl.
    + unfold F64.add. rewrite SFadd_nan_r. apply accumulate_from_nan.
    + by apply IH.
Qed.

(** One error that is not a number makes the mean not a number. *)
Lemma mean_error_nan (errors : list F32.t) :
  S754_nan ∈ errors -> mean_error errors = S754_nan.
Proof. intros Hin. unfold mean_error. by rewrite accumulate_nan. Qed.

(** X13: a face one of whose errors is not a number has a mean error that
    is not a number, and, as that compares above no threshold, [save]
    draws the face and its text but never writes a file for it, however far
    off its other landmarks are. *)
Theorem X13_face_with_nan_error_is_never_saved
    (getNormalizedErrors :
       FaceAnnotation -> FaceAnnotation -> ErrorMeasure -> list N * list F32.t)
    (float_to_string : F32.t -> string)
    (fuel : nat) (self : FaceAlignment) (dirpath : string)
    (ann : FaceAnnotation) (threshold : F32.t) (radius thickness : Z)
    (face : FaceAnnotation) (image : Mat) (fs : gmap string Mat) :
  S754_nan ∈ face_errors getNormalizedErrors self ann face ->
  face_mean_error getNormalizedErrors self ann face = S754_nan /\
  save_face getNormalizedErrors float_to_string fuel self dirpath ann
            threshold radius thickness face (image, fs)
  = Ret (annotate getNormalizedErrors float_to_string self ann radius
                  thickness image face, fs).
Proof.
  intros Hin.
  assert (face_mean_error getNormalizedErrors self ann face = S754_nan)
    as Hmean by (by apply mean_error_nan).
  split; [exact Hmean|].
  apply save_face_not_hard. unfold is_hard. rewrite Hmean.
  apply F32_gt_nan_l.
Qed.

Lemma X13_face_with_nan_error_is_never_saved_witness :
  face_mean_error Sample_errors.with_nan Sample_faces.by_height
                  Sample_faces.ground_truth Sample_faces.far = S754_nan /\
  save_face Sample_errors.with_nan Sample.float_to_string 0
            Sample_faces.by_height "out/" Sample_faces.ground_truth
            f4_0 3 2 Sample_faces.far (Sample_files.blank, ∅)
  = Ret (annotate Sample_errors.with_nan Sample.float_to_string
                  Sample_faces.by_height Sample_faces.ground_truth 3 2
                  Sample_files.blank Sample_faces.far, ∅).
Proof.
  apply (X13_face_with_nan_error_is_never_saved
           Sample_errors.with_nan Sample.float_to_string 0
           Sample_faces.by_height "out/" Sample_faces.ground_truth
           f4_0 3 2 Sample_faces.far Sample_files.blank ∅).
  in_literals.
Defined.

(** ** [save] as a whole *)

(** X14: in a directory with room for one more file per face (fewer than
    [2^32] files afterwards), [save] ends: there is an amount of fuel from
    which on it returns a file system. *)
Theorem X14_save_ends_when_the_directory_has_room
    (getNormalizedErrors :
       FaceAnnotation -> FaceAnnotation -> ErrorMeasure -> list N * list F32.t)
    (float_to_string : F32.t -> string) (decoded_rows : string -> Z)
    (round_to_int : F32.t -> Z)
    (self : FaceAlignment) (dirpath : string)
    (faces : list FaceAnnotation) (ann : FaceAnnotation)
    (fs : gmap string Mat) :
  (N.of_nat (size fs + length faces) < UINT_MOD)%N ->
  exists turns, forall fuel, turns <= fuel ->
    exists fs',
      save getNormalizedErrors float_to_string decoded_rows round_to_int
           fuel self dirpath faces ann fs = Ret fs'.
Proof.
  intros Hroom.
  destruct (save_faces_total getNormalizedErrors float_to_string self
              dirpath ann (save_threshold self)
              (marker_radius round_to_int ann)
              (line_thickness round_to_int ann) faces
              (save_prepare decoded_rows round_to_int ann) fs Hroom)
    as (turns & Hturns).
  exists turns. intros fuel Hfuel.
  destruct (Hturns fuel Hfuel) as ([image' fs'] & Hrun).
  exists fs'. unfold save, save_run. by rewrite Hrun.
Qed.

Lemma X14_save_ends_when_the_directory_has_room_witness :
  exists turns, forall fuel, turns <= fuel ->
    exists fs',
      save Sample.getNormalizedErrors Sample.float_to_string
           Sample.decoded_rows Sample.round_to_int fuel
           Sample_faces.by_height "out/"
           [Sample_faces.far; Sample_faces.close]
           Sample_faces.ground_truth Sample_files.two_taken = Ret fs'.
Proof.
  apply (X14_save_ends_when_the_directory_has_room
           Sample.getNormalizedErrors Sample.float_to_string
           Sample.decoded_rows Sample.round_to_int Sample_faces.by_height
           "out/" [Sample_faces.far; Sample_faces.close]
           Sample_faces.ground_truth Sample_files.two_taken).
  vm_compute. reflexivity.
Defined.

Section SaveNames.
Variable getNormalizedErrors :
  FaceAnnotation -> FaceAnnotation -> ErrorMeasure -> list N * list F32.t.
Variable float_to_string : F32.t -> string.
Variable self : FaceAlignment.
Variable dirpath : string.
Variable ann : FaceAnnotation.
Variable threshold : F32.t.
Variable radius thickness : Z.

Local Abbreviation loop := (save_faces getNormalizedErrors float_to_string).
Local Abbreviation hard := (is_hard getNormalizedErrors self ann threshold).

(** A file that appears during the loop is named after a hard face. *)
Lemma save_faces_created (fuel : nat) (faces : list FaceAnnotation) :
  forall (image : Mat) (fs : gmap string Mat) (image' : Mat)
         (fs' : gmap string Mat) (filepath : string),
    loop fuel self dirpath ann threshold radius thickness faces (image, fs)
    = Ret (image', fs') ->
    fs !! filepath = None ->
    is_Some (fs' !! filepath) ->
    exists face n,
      face ∈ faces /\ hard face = true /\ (n < UINT_MOD)%N /\
      filepath = candidate dirpath (basename (filename face)) n.
Proof.
  induction faces as [|face rest IH];
    intros image fs image' fs' filepath H Hold Hnew.
  - injection H as <- <-. rewrite Hold in Hnew. by destruct Hnew.
  - rewrite save_faces_cons in H.
    apply res_bind_inv in H as ([image1 fs1] & Hstep & Hrest).
    destruct (is_hard getNormalizedErrors self ann threshold face) eqn:Hh.
    + apply save_face_hard_ret in Hstep as (n & Hn & [= -> ->]); [|done].
      destruct (decide (filepath
                        = candidate dirpath (basename (filename face)) n))
        as [->|Hne].
      * exists face, n. destruct Hn as (Hn & _).
        repeat split; [apply list_elem_of_here|done|done].
      * destruct (IH _ _ _ _ filepath Hrest)
          as (face' & n' & Hin & Hhard & Hn' & ->); [|done|].
        { by rewrite lookup_insert_ne. }
        exists face', n'.
        repeat split; [by apply list_elem_of_further|done|done].
    + rewrite save_face_not_hard in Hstep by done.
      injection Hstep as <- <-.
      destruct (IH _ _ _ _ filepath Hrest Hold Hnew)
        as (face' & n' & Hin & Hhard & Hn' & ->).
      exists face', n'.
      repeat split; [by apply list_elem_of_further|done|done].
Qed.
End SaveNames.

(** X15: [save] creates no file but the hard cases: every path that exists
    after [save] and did not before is [dirpath], a number below [2^32],
    an underscore and the base name of a face of the list whose mean error
    is above the threshold. *)
Theorem X15_save_creates_only_hard_case_names
    (getNormalizedErrors :
       FaceAnnotation -> FaceAnnotation -> ErrorMeasure -> list N * list F32.t)
    (float_to_string : F32.t -> string) (decoded_rows : string -> Z)
    (round_to_int : F32.t -> Z)
    (fuel : nat) (self : FaceAlignment) (dirpath : string)
    (faces : list FaceAnnotation) (ann : FaceAnnotation)
    (fs fs' : gmap string Mat) (filepath : string) :
  save getNormalizedErrors float_to_string decoded_rows round_to_int
       fuel self dirpath faces ann fs = Ret fs' ->
  fs !! filepath = None ->
  is_Some (fs' !! filepath) ->
  exists face n,
    face ∈ faces /\
    F32.gt (mean_error (face_errors getNormalizedErrors self ann face))
           (save_threshold self) = true /\
    (n < UINT_MOD)%N /\
    filepath
    = ((dirpath +:+ to_string n) +:+ "_") +:+ basename (filename face).
Proof.
  intros Hsave Hold Hnew.
  apply save_run_of_save in Hsave as (image' & Hrun). unfold save_run in Hrun.
  exact (save_faces_created _ _ _ _ _ _ _ _ _ _ _ _ _ _ _ Hrun Hold Hnew).
Qed.

Lemma X15_save_creates_only_hard_case_names_witness :
  exists face n,
    face ∈ [Sample_faces.close; Sample_faces.far] /\
    F32.gt (mean_error (face_errors Sample.getNormalizedErrors
                          Sample_faces.by_height Sample_faces.ground_truth
                          face))
           (save_threshold Sample_faces.by_height) = true /\
    (n < UINT_MOD)%N /\
    "out/2_face.png"
    = (("out/" +:+ to_string n) +:+ "_") +:+ basename (filename face).
Proof.
  eapply (X15_save_creates_only_hard_case_names
            Sample.getNormalizedErrors Sample.float_to_string
            Sample.decoded_rows Sample.round_to_int 3 Sample_faces.by_height
            "out/" [Sample_faces.close; Sample_faces.far]
            Sample_faces.ground_truth Sample_files.two_taken _
            "out/2_face.png").
  - vm_compute. reflexivity.
  - reflexivity.
  - vm_compute. by eexists.
Defined.

Section SaveNumbers.
Variable getNormalizedErrors :
  FaceAnnotation -> FaceAnnotation -> ErrorMeasure -> list N * list F32.t.
Variable float_to_string : F32.t -> string.
Variable self : FaceAlignment.
Variable dirpath : string.
Variable ann : FaceAnnotation.
Variable threshold : F32.t.
Variable radius thickness : Z.
Variable name : string.

Local Abbreviation loop := (save_faces getNormalizedErrors float_to_string).
Local Abbreviation hard := (is_hard getNormalizedErrors self ann threshold).
Local Abbreviation hards :=
  (hard_count getNormalizedErrors self ann threshold).
Local Abbreviation note :=
  (annotate getNormalizedErrors float_to_string self ann radius thickness).
Local Abbreviation note_all :=
  (annotate_all getNormalizedErrors float_to_string self ann radius
                thickness).
Local Abbreviation numbered := (candidate dirpath (basename name)).

Lemma hard_count_cons (face : FaceAnnotation) (rest : list FaceAnnotation) :
  hards (face :: rest)
  = ((if hard face then 1 else 0) + hards rest)%N.
Proof.
  unfold hard_count. rewrite filter_cons.
  destruct (is_hard getNormalizedErrors self ann threshold face).
  - rewrite decide_True by done. simpl length. lia.
  - rewrite decide_False by done. lia.
Qed.

(** Faces of one file name, in a directory where the numbers taken for that
    name are those below [m]: the hard cases take the numbers from [m] on,
    in the order of the faces. *)
Lemma save_faces_numbered (fuel : nat) (faces : list FaceAnnotation) :
  forall (image : Mat) (fs : gmap string Mat) (image' : Mat)
         (fs' : gmap string Mat) (m : N),
    Forall (fun face => filename face = name) faces ->
    (forall n, is_Some (fs !! numbered n) <-> (n < m)%N) ->
    loop fuel self dirpath ann threshold radius thickness faces (image, fs)
    = Ret (image', fs') ->
    (forall n, is_Some (fs' !! numbered n) <-> (n < m + hards faces)%N) /\
    (forall k face,
        faces !! k = Some face -> hard face = true ->
        fs' !! numbered (m + hards (take k faces))
        = Some (note_all image (take (S k) faces))).
Proof.
  induction faces as [|face rest IH];
    intros image fs image' fs' m Hname Htaken H.
  - injection H as <- <-. split; [|done].
    intros n. rewrite Htaken. unfold hard_count. simpl. lia.
  - apply Forall_cons in Hname as (Hface & Hrest).
    rewrite save_faces_cons in H.
    apply res_bind_inv in H as ([image1 fs1] & Hstep & Hloop).
    rewrite hard_count_cons.
    destruct (is_hard getNormalizedErrors self ann threshold face) eqn:Hh.
    + apply save_face_hard_ret in Hstep as (n0 & Hn0 & [= -> ->]);
        [|done].
      rewrite Hface in Hn0. destruct Hn0 as (_ & Hfree & Hleast).
      assert (n0 = m) as ->.
      { destruct (N.lt_trichotomy n0 m) as [Hlt|[Heq|Hgt]]; [|done|].
        - apply Htaken, elem_of_dom in Hlt. done.
        - apply Hleast, elem_of_dom, Htaken in Hgt. lia. }
      rewrite Hface in Hloop.
      assert (forall n,
                 is_Some (<[candidate dirpath (basename name) m
                            := annotate getNormalizedErrors float_to_string
                                 self ann radius thickness image face]> fs
                          !! candidate dirpath (basename name) n)
                 <-> (n < m + 1)%N) as Htaken1.
      { intros n. destruct (decide (n = m)) as [->|Hne].
        - rewrite lookup_insert_eq. split; [lia|by eexists].
        - rewrite lookup_insert_ne
            by (intros Heq; by apply candidate_inj in Heq).
          rewrite Htaken. lia. }
      destruct (IH _ _ _ _ (m + 1)%N Hrest Htaken1 Hloop) as (Hdom & Hpos).
      split.
      * intros n. rewrite Hdom. lia.
      * intros [|k] face' Hk Hhard.
        -- simpl in Hk. injection Hk as <-.
           pose proof (save_faces_ret _ _ _ _ _ _ _ _ _ _ _ _ _ _ Hloop)
             as (_ & Hsub & _).
           eapply lookup_weaken; [|exact Hsub].
           cbn [take]. unfold hard_count. simpl.
           rewrite N.add_0_r. apply lookup_insert_eq.
        -- simpl in Hk. specialize (Hpos k face' Hk Hhard).
           cbn [take]. rewrite hard_count_cons, Hh.
           by rewrite N.add_assoc.
    + rewrite save_face_not_hard in Hstep by done.
      injection Hstep as <- <-.
      destruct (IH _ _ _ _ m Hrest Htaken Hloop) as (Hdom & Hpos).
      split.
      * intros n. by rewrite Hdom.
      * intros [|k] face' Hk Hhard.
        -- simpl in Hk. injection Hk as <-. congruence.
        -- simpl in Hk. specialize (Hpos k face' Hk Hhard).
           cbn [take]. by rewrite hard_count_cons, Hh.
Qed.
End SaveNumbers.

(** X16: the faces of one image carry one file name.  When [save] starts
    with no file numbered for that name, it leaves exactly the numbers
    0, 1, ..., h - 1, where h is the number of hard cases among the faces,
    and the file of the number that counts the hard cases before a hard
    face holds the image as it stood when that face had been drawn: the
    hard cases are numbered in the order of the faces. *)
Theorem X16_hard_cases_are_numbered_in_order
    (getNormalizedErrors :
       FaceAnnotation -> FaceAnnotation -> ErrorMeasure -> list N * list F32.t)
    (float_to_string : F32.t -> string) (decoded_rows : string -> Z)
    (round_to_int : F32.t -> Z)
    (fuel : nat) (self : FaceAlignment) (dirpath : string)
    (faces : list FaceAnnotation) (ann : FaceAnnotation)
    (fs fs' : gmap string Mat) (name : string) :
  Forall (fun face => filename face = name) faces ->
  (forall n, fs !! candidate dirpath (basename name) n = None) ->
  save getNormalizedErrors float_to_string decoded_rows round_to_int
       fuel self dirpath faces ann fs = Ret fs' ->
  (forall n,
      is_Some (fs' !! (((dirpath +:+ to_string n) +:+ "_")
                       +:+ basename name))
      <-> (n < hard_count getNormalizedErrors self ann (save_threshold self)
                          faces)%N)
  /\
  (forall k face,
      faces !! k = Some face ->
      F32.gt (mean_error (face_errors getNormalizedErrors self ann face))
             (save_threshold self) = true ->
      fs' !! (((dirpath
                +:+ to_string
                      (hard_count getNormalizedErrors self ann
                                  (save_threshold self) (take k faces)))
               +:+ "_") +:+ basename name)
      = Some (annotate_all getNormalizedErrors float_to_string self ann
                (marker_radius round_to_int ann)
                (line_thickness round_to_int ann)
                (save_prepare decoded_rows round_to_int ann)
                (take (S k) faces))).
Proof.
  intros Hname Hfree Hsave.
  apply save_run_of_save in Hsave as (image' & Hrun). unfold save_run in Hrun.
  assert (forall n,
             is_Some (fs !! candidate dirpath (basename name) n)
             <-> (n < 0)%N) as Htaken.
  { intros n. rewrite Hfree. split; [by intros []|lia]. }
  destruct (save_faces_numbered getNormalizedErrors float_to_string self
              dirpath ann (save_threshold self)
              (marker_radius round_to_int ann)
              (line_thickness round_to_int ann) name fuel faces
              _ _ _ _ 0%N Hname Htaken Hrun) as (Hdom & Hpos).
  split.
  - intros n. apply Hdom.
  - intros k face Hk Hhard. exact (Hpos k face Hk Hhard).
Qed.

Lemma X16_hard_cases_are_numbered_in_order_witness :
  let faces := [Sample_faces.far; Sample_faces.close; Sample_faces.farther] in
  let fs' :=
    ({[ "out/0_face.png" :=
          annotate_all Sample.getNormalizedErrors Sample.float_to_string
            Sample_faces.by_height Sample_faces.ground_truth 3 2
            (save_prepare Sample.decoded_rows Sample.round_to_int
               Sample_faces.ground_truth) (take 1 faces);
        "out/1_face.png" :=
          annotate_all Sample.getNormalizedErrors Sample.float_to_string
            Sample_faces.by_height Sample_faces.ground_truth 3 2
            (save_prepare Sample.decoded_rows Sample.round_to_int
               Sample_faces.ground_truth) (take 3 faces) ]}
     : gmap string Mat) in
  (forall n,
      is_Some (fs' !! ((("out/" +:+ to_string n) +:+ "_")
                       +:+ basename "img/face.png"))
      <-> (n < hard_count Sample.getNormalizedErrors Sample_faces.by_height
                          Sample_faces.ground_truth
                          (save_threshold Sample_faces.by_height) faces)%N)
  /\
  (forall k face,
      faces !! k = Some face ->
      F32.gt (mean_error (face_errors Sample.getNormalizedErrors
                            Sample_faces.by_height Sample_faces.ground_truth
                            face))
             (save_threshold Sample_faces.by_height) = true ->
      fs' !! ((("out/"
                +:+ to_string
                      (hard_count Sample.getNormalizedErrors
                         Sample_faces.by_height Sample_faces.ground_truth
                         (save_threshold Sample_faces.by_height)
                         (take k faces)))
               +:+ "_") +:+ basename "img/face.png")
      = Some (annotate_all Sample.getNormalizedErrors Sample.float_to_string
                Sample_faces.by_height Sample_faces.ground_truth
                (marker_radius Sample.round_to_int Sample_faces.ground_truth)
                (line_thickness Sample.round_to_int
                   Sample_faces.ground_truth)
                (save_prepare Sample.decoded_rows Sample.round_to_int
                   Sample_faces.ground_truth)
                (take (S k) faces))).
Proof.
  intros faces fs'.
  apply (X16_hard_cases_are_numbered_in_order
           Sample.getNormalizedErrors Sample.float_to_string
           Sample.decoded_rows Sample.round_to_int 3 Sample_faces.by_height
           "out/" faces Sample_faces.ground_truth ∅ fs' "img/face.png").
  - repeat constructor.
  - intros n. apply lookup_empty.
  - vm_compute. reflexivity.
Defined.
